(** * Fleiss' kappa for binary ratings: a shallow embedding of
      [fleiss_kappa_app.py] and the verification of its specification.

    The two functions of the core, [fleiss_kappa_binary] (the Agreement
    Calculator, "compute") and [reviewer_contribution_analysis] (the
    Contribution Analyzer, "analyze"), are translated statement by statement.
    Python exceptions are an explicit error monad.  Integers are [Z].

    The floating-point operations the code performs are gathered in a record
    [arith], so that the one translation of the program can be run
      - in [binary64]: IEEE 754 double precision (Python's [float] and
        NumPy's [float64]), through Rocq's primitive floats, and
      - in [exact]: the same operations without rounding, on rationals
        extended with the special values infinity and NaN.
    Structural properties are proved for every [arith]; numeric bounds are
    proved in [exact]; concrete runs are evaluated in both. *)

From Stdlib Require Import Ascii String.
From Stdlib Require Import ZArith List Bool Arith Lia Permutation.
From Stdlib Require Import QArith Qcanon Lqa Floats.
Import ListNotations.

Set Implicit Arguments.
Set Warnings "-inexact-float".

(* ================================================================= *)
(** ** Python exceptions as an error monad *)

Inductive exn : Type :=
| ValueError (msg : string)
| ZeroDivisionError
| IndexError.

Inductive result (A : Type) : Type :=
| Ok (a : A)
| Raise (e : exn).

Arguments Ok {A} a.
Arguments Raise {A} e.

Definition bind {A B : Type} (r : result A) (k : A -> result B) : result B :=
  match r with
  | Ok a => k a
  | Raise e => Raise e
  end.

Declare Scope py_scope.
Delimit Scope py_scope with py.
Notation "x <- c ;; k" := (bind c (fun x => k))
  (at level 61, c at next level, right associativity) : py_scope.
Notation "' pat <- c ;; k" := (bind c (fun x => match x with pat => k end))
  (at level 61, pat pattern, c at next level, right associativity) : py_scope.
Open Scope py_scope.

(** [range(lo, hi)]. *)
Definition range (lo hi : nat) : list nat := seq lo (hi - lo).

(** [for x in xs: s = body(x, s)], stopping at the first exception. *)
Fixpoint for_each {S : Type} (xs : list nat) (body : nat -> S -> result S)
         (s : S) : result S :=
  match xs with
  | [] => Ok s
  | x :: xs' => s' <- body x s ;; for_each xs' body s'
  end.

(** [[f(x) for x in xs]], stopping at the first exception. *)
Fixpoint map_result {A B : Type} (f : A -> result B) (xs : list A)
  : result (list B) :=
  match xs with
  | [] => Ok []
  | x :: xs' => y <- f x ;; ys <- map_result f xs' ;; Ok (y :: ys)
  end.

(** [l[i]] for a non-negative index. *)
Definition getitem {A : Type} (l : list A) (i : nat) : result A :=
  match nth_error l i with
  | Some x => Ok x
  | None => Raise IndexError
  end.

(** The builtin [sum] on a tuple of integers. *)
Definition py_sum (item : list Z) : Z := fold_left Z.add item 0%Z.

(** [zip] over the unpacked rows: every step asks each row for its next
    element and stops as soon as one of them is exhausted. *)
Fixpoint heads (rows : list (list Z)) : option (list Z * list (list Z)) :=
  match rows with
  | [] => Some ([], [])
  | [] :: _ => None
  | (x :: r) :: rows' =>
      match heads rows' with
      | Some (hs, ts) => Some (x :: hs, r :: ts)
      | None => None
      end
  end.

Fixpoint zip_from (first : list Z) (rest : list (list Z)) : list (list Z) :=
  match first with
  | [] => []
  | x :: first' =>
      match heads rest with
      | Some (hs, ts) => (x :: hs) :: zip_from first' ts
      | None => []
      end
  end.

Definition zip_star (rows : list (list Z)) : list (list Z) :=
  match rows with
  | [] => []
  | r :: rs => zip_from r rs
  end.

(* ================================================================= *)
(** ** The floating-point operations used by the program *)

Record arith : Type := Arith {
  num : Type;
  (** conversion of a Python [int] operand to a float *)
  of_int : Z -> num;
  (** [a / b] on two Python [int]s with [b] non-zero: the correctly rounded
      quotient (the program only divides a count by a larger one, so the
      quotient is never too large for a float) *)
  truediv_int : Z -> Z -> num;
  add : num -> num -> num;
  sub : num -> num -> num;
  mul : num -> num -> num;
  (** [/] on NumPy [float64] scalars: a zero divisor does not raise, it
      yields NaN or an infinity (with a [RuntimeWarning]) *)
  div : num -> num -> num;
  (** NumPy's [add.reduce] over a one-dimensional [float64] array *)
  np_sum : list num -> num;
  ltb : num -> num -> bool;
  leb : num -> num -> bool;
  eqb : num -> num -> bool
}.

(** [a / b] on Python [int]s. *)
Definition py_truediv (A : arith) (a b : Z) : result (num A) :=
  if (b =? 0)%Z then Raise ZeroDivisionError else Ok (truediv_int A a b).

(** [np.mean] of a list of floats: the sum divided by the element count. *)
Definition np_mean (A : arith) (l : list (num A)) : num A :=
  div A (np_sum A l) (of_int A (Z.of_nat (length l))).

(** [x ** 2], the rounded square. *)
Definition pow2 (A : arith) (x : num A) : num A := mul A x x.

(** [x > y]. *)
Definition gtb (A : arith) (x y : num A) : bool := ltb A y x.

(* ----------------------------------------------------------------- *)
(** *** IEEE 754 binary64 *)

Module B64.

Definition Z2SF (z : Z) : spec_float :=
  match z with
  | Z0 => S754_zero false
  | Zpos p => S754_finite false p 0
  | Zneg p => S754_finite true p 0
  end.

Definition of_int (z : Z) : float :=
  SF2Prim (binary_normalize prec emax z 0 false).

Definition truediv_int (a b : Z) : float :=
  SF2Prim (SFdiv prec emax (Z2SF a) (Z2SF b)).

(** NumPy sums a contiguous block pairwise: fewer than 8 elements in a
    plain loop, up to 128 elements with 8 interleaved accumulators, and
    longer blocks by splitting them in two.  The accumulators start from
    zero; no summand of the program is negative, so the sign of that zero
    does not matter. *)
Fixpoint loop_add (acc : float) (l : list float) : float :=
  match l with
  | [] => acc
  | x :: l' => loop_add (PrimFloat.add acc x) l'
  end.

Fixpoint unrolled (r : list float) (l : list float) (blocks : nat)
  : list float * list float :=
  match blocks with
  | O => (r, l)
  | S b =>
      (unrolled (map (fun p => PrimFloat.add (fst p) (snd p))
                    (combine r (firstn 8 l)))
                (skipn 8 l) b)
  end.

Definition block_sum (l : list float) : float :=
  let n := length l in
  let '(r, rest) := unrolled (firstn 8 l) (skipn 8 l) (n / 8 - 1) in
  let r i := nth i r 0%float in
  let res :=
    PrimFloat.add
      (PrimFloat.add (PrimFloat.add (r 0%nat) (r 1%nat))
                     (PrimFloat.add (r 2%nat) (r 3%nat)))
      (PrimFloat.add (PrimFloat.add (r 4%nat) (r 5%nat))
                     (PrimFloat.add (r 6%nat) (r 7%nat))) in
  loop_add res rest.

Fixpoint pairwise_sum (fuel : nat) (l : list float) : float :=
  let n := length l in
  if (n <? 8)%nat then loop_add 0%float l
  else if (n <=? 128)%nat then block_sum l
  else
    match fuel with
    | O => block_sum l
    | S fuel' =>
        let n2 := (n / 2 - (n / 2) mod 8)%nat in
        PrimFloat.add (pairwise_sum fuel' (firstn n2 l))
                      (pairwise_sum fuel' (skipn n2 l))
    end.

Definition np_sum (l : list float) : float :=
  PrimFloat.add 0%float (pairwise_sum (length l) l).

End B64.

Definition binary64 : arith :=
  {| num := float;
     of_int := B64.of_int;
     truediv_int := B64.truediv_int;
     add := PrimFloat.add;
     sub := PrimFloat.sub;
     mul := PrimFloat.mul;
     div := PrimFloat.div;
     np_sum := B64.np_sum;
     ltb := PrimFloat.ltb;
     leb := PrimFloat.leb;
     eqb := PrimFloat.eqb |}.

(* ----------------------------------------------------------------- *)
(** *** Exact arithmetic: rationals with infinities and NaN

    The same operations without rounding.  Signed zeros are not
    distinguished; a non-zero number over zero is the infinity of the sign
    of the numerator. *)

Module Exact.

Inductive xnum : Type :=
| Fin (q : Qc)
| PInf
| NInf
| XNaN.

Definition is_zero (q : Qc) : bool := Qeq_bool q 0.
Definition is_pos (q : Qc) : bool := negb (Qle_bool q 0).

(** the infinity of the sign of [q], NaN when [q] is zero *)
Definition signed_inf (q : Qc) (positive : xnum) (negative : xnum) : xnum :=
  if is_zero q then XNaN else if is_pos q then positive else negative.

Definition of_int (z : Z) : xnum := Fin (Q2Qc (inject_Z z)).

Definition truediv_int (a b : Z) : xnum :=
  Fin (Q2Qc (inject_Z a) / Q2Qc (inject_Z b))%Qc.

Definition neg (x : xnum) : xnum :=
  match x with
  | Fin q => Fin (- q)%Qc
  | PInf => NInf
  | NInf => PInf
  | XNaN => XNaN
  end.

Definition add (x y : xnum) : xnum :=
  match x, y with
  | XNaN, _ | _, XNaN => XNaN
  | Fin a, Fin b => Fin (a + b)%Qc
  | PInf, NInf | NInf, PInf => XNaN
  | PInf, _ | _, PInf => PInf
  | NInf, _ | _, NInf => NInf
  end.

Definition sub (x y : xnum) : xnum := add x (neg y).

Definition mul (x y : xnum) : xnum :=
  match x, y with
  | XNaN, _ | _, XNaN => XNaN
  | Fin a, Fin b => Fin (a * b)%Qc
  | Fin a, PInf | PInf, Fin a => signed_inf a PInf NInf
  | Fin a, NInf | NInf, Fin a => signed_inf a NInf PInf
  | PInf, PInf | NInf, NInf => PInf
  | PInf, NInf | NInf, PInf => NInf
  end.

Definition div (x y : xnum) : xnum :=
  match x, y with
  | XNaN, _ | _, XNaN => XNaN
  | Fin a, Fin b =>
      if is_zero b then signed_inf a PInf NInf else Fin (a / b)%Qc
  | Fin _, _ => Fin 0%Qc
  | PInf, Fin b => if is_zero b || is_pos b then PInf else NInf
  | NInf, Fin b => if is_zero b || is_pos b then NInf else PInf
  | _, _ => XNaN
  end.

Definition np_sum (l : list xnum) : xnum := fold_left add l (Fin 0%Qc).

Definition leb (x y : xnum) : bool :=
  match x, y with
  | XNaN, _ | _, XNaN => false
  | NInf, _ | _, PInf => true
  | Fin a, Fin b => Qle_bool a b
  | _, _ => false
  end.

Definition ltb (x y : xnum) : bool :=
  match x, y with
  | XNaN, _ | _, XNaN => false
  | _, _ => negb (leb y x)
  end.

Definition eqb (x y : xnum) : bool :=
  match x, y with
  | Fin a, Fin b => Qeq_bool a b
  | PInf, PInf | NInf, NInf => true
  | _, _ => false
  end.

End Exact.

Definition exact : arith :=
  {| num := Exact.xnum;
     of_int := Exact.of_int;
     truediv_int := Exact.truediv_int;
     add := Exact.add;
     sub := Exact.sub;
     mul := Exact.mul;
     div := Exact.div;
     np_sum := Exact.np_sum;
     ltb := Exact.ltb;
     leb := Exact.leb;
     eqb := Exact.eqb |}.

(* ================================================================= *)
(** ** The Agreement Calculator: [fleiss_kappa_binary] *)

Definition msg_empty : string := "The ratings list is empty."%string.
Definition msg_raters : string := "There should be at least two raters."%string.
Definition msg_lengths : string :=
  "All inner lists should have the same length."%string.
Definition msg_binary : string := "All ratings should be binary (0 or 1)."%string.
Definition msg_items : string :=
  "There should be at least two items being rated."%string.

Definition matrix : Type := list (list Z).

(** [len(set(map(len, ratings)))] *)
Definition distinct_lengths (ratings : matrix) : nat :=
  length (nodup Nat.eq_dec (map (@length Z) ratings)).

(** [rating not in [0, 1]] *)
Definition not_binary (rating : Z) : bool :=
  negb ((rating =? 0)%Z || (rating =? 1)%Z).

(** The input validation, lines 24 to 33. *)
Definition validate (ratings : matrix) : result unit :=
  match ratings with
  | [] => Raise (ValueError msg_empty)
  | row0 :: _ =>
      if (length ratings <? 2)%nat then Raise (ValueError msg_raters)
      else if negb (distinct_lengths ratings =? 1)%nat
      then Raise (ValueError msg_lengths)
      else if existsb not_binary (concat ratings)
      then Raise (ValueError msg_binary)
      else if (length row0 <? 2)%nat then Raise (ValueError msg_items)
      else Ok tt
  end.

(** The body of the innermost loop, lines 47 to 49, on the pair of counters
    [(agreements, total_pairs)]. *)
Definition count_pair (ratings : matrix) (i j k : nat) (c : Z * Z)
  : result (Z * Z) :=
  let '(agreements, total_pairs) := c in
  let total_pairs := (total_pairs + 1)%Z in
  rj <- getitem ratings j ;;
  a <- getitem rj i ;;
  rk <- getitem ratings k ;;
  b <- getitem rk i ;;
  Ok (if (a =? b)%Z then (agreements + 1)%Z else agreements, total_pairs).

(** The three nested loops, lines 44 to 49. *)
Definition count_agreements (ratings : matrix) (n_raters n_items : nat)
  : result (Z * Z) :=
  for_each (range 0 n_items) (fun i =>
    for_each (range 0 n_raters) (fun j =>
      for_each (range (j + 1) n_raters) (fun k =>
        count_pair ratings i j k)))
    (0%Z, 0%Z).

(** [po] is the quotient of two Python [int]s, which raises
    [ZeroDivisionError] on a zero divisor.  [p_pos] is returned by [np.mean]
    and is a NumPy [float64]; so are [p_neg], [p_e], both operands of the
    last division and [kappa], since [float64] takes precedence in
    operations mixed with [int] and [float].  That division is therefore
    [div], which returns NaN or an infinity on a zero divisor. *)
Definition fleiss_kappa_binary (A : arith) (ratings : matrix)
  : result (num A * num A) :=
  _ <- validate ratings ;;
  let n_raters := length ratings in
  row0 <- getitem ratings 0 ;;
  let n_items := length row0 in
  '(agreements, total_pairs) <- count_agreements ratings n_raters n_items ;;
  po <- py_truediv A agreements total_pairs ;;
  fractions <- map_result
                 (fun item => py_truediv A (py_sum item) (Z.of_nat n_raters))
                 (zip_star ratings) ;;
  let p_pos := np_mean A fractions in
  let p_neg := sub A (of_int A 1) p_pos in
  let p_e := add A (pow2 A p_pos) (pow2 A p_neg) in
  let kappa := div A (sub A po p_e) (sub A (of_int A 1) p_e) in
  Ok (kappa, po).

(* ================================================================= *)
(** ** The Contribution Analyzer: [reviewer_contribution_analysis] *)

(** The [ValueError]s of the builtins [max] and [list.index]; the wording of
    their messages varies between Python versions. *)
Definition msg_max_empty : string := "max() arg is an empty sequence"%string.
Definition msg_not_in_list : string := "value is not in list"%string.

(** [[ratings[j] for j in range(n_raters) if j != i]] *)
Definition reduced_ratings (ratings : matrix) (n_raters i : nat)
  : result matrix :=
  map_result (getitem ratings)
             (filter (fun j => negb (j =? i)%nat) (range 0 n_raters)).

(** The builtin [max] on a list: it keeps the first element and replaces it
    by a later one only when that one compares greater.  The list holds
    distinct float objects, so the object that [max] returns is identified
    by its position; the position is kept together with the value. *)
Fixpoint max_loop (A : arith) (items : list (num A)) (pos : nat)
         (maxitem : nat * num A) : nat * num A :=
  match items with
  | [] => maxitem
  | item :: items' =>
      max_loop A items' (S pos)
               (if gtb A item (snd maxitem) then (pos, item) else maxitem)
  end.

Definition py_max (A : arith) (l : list (num A)) : result (nat * num A) :=
  match l with
  | [] => Raise (ValueError msg_max_empty)
  | x :: l' => Ok (max_loop A l' 1 (0%nat, x))
  end.

(** [list.index]: the first element that is the searched object or compares
    equal to it. *)
Fixpoint index_from (A : arith) (l : list (num A)) (pos : nat)
         (target : nat * num A) : result nat :=
  match l with
  | [] => Raise (ValueError msg_not_in_list)
  | x :: l' =>
      if (pos =? fst target)%nat || eqb A x (snd target) then Ok pos
      else index_from A l' (S pos) target
  end.

Definition py_index (A : arith) (l : list (num A)) (target : nat * num A)
  : result nat :=
  index_from A l 0 target.

Definition reviewer_contribution_analysis (A : arith) (ratings : matrix)
  : result (nat * num A * list (num A)) :=
  let n_raters := length ratings in
  kappa_scores <-
    for_each (range 0 n_raters) (fun i kappa_scores =>
      reduced <- reduced_ratings ratings n_raters i ;;
      '(kappa, _) <- fleiss_kappa_binary A reduced ;;
      Ok (kappa_scores ++ [kappa]))
      [] ;;
  highest_kappa <- py_max A kappa_scores ;;
  most_contributory_reviewer <- py_index A kappa_scores highest_kappa ;;
  Ok (most_contributory_reviewer, snd highest_kappa, kappa_scores).

(* ================================================================= *)
(** ** Notions of the specification *)

(** Number of items of a matrix: the length of its first row. *)
Definition n_items (m : matrix) : nat := length (hd [] m).

Definition rectangular (N : nat) (m : matrix) : Prop :=
  Forall (fun row => length row = N) m.

Definition is_binary (v : Z) : Prop := v = 0%Z \/ v = 1%Z.

Definition binary (m : matrix) : Prop := Forall (Forall is_binary) m.

(** A valid rating matrix: at least 2 raters, at least 2 items, all rows of
    equal length, all values 0 or 1. *)
Definition valid_matrix (m : matrix) : Prop :=
  (2 <= length m)%nat /\ (2 <= n_items m)%nat /\
  rectangular (n_items m) m /\ binary m.

(** The ratings of item [i], one per rater. *)
Definition column (i : nat) (m : matrix) : list Z :=
  map (fun row => nth i row 0%Z) m.

Definition columns (m : matrix) : list (list Z) :=
  map (fun i => column i m) (seq 0 (n_items m)).

(** Number of elements of [l] equal to [x]. *)
Fixpoint count_eq (x : Z) (l : list Z) : Z :=
  match l with
  | [] => 0
  | y :: l' => (if (x =? y)%Z then 1 else 0) + count_eq x l'
  end.

(** Number of unordered pairs of distinct positions of [col] that hold the
    same value: every position is paired with the later positions that hold
    its value. *)
Fixpoint agreeing_pairs (col : list Z) : Z :=
  match col with
  | [] => 0
  | x :: col' => count_eq x col' + agreeing_pairs col'
  end.

(** Number of raters marking the item positive. *)
Definition ones (col : list Z) : Z := count_eq 1 col.

Definition zsum (l : list Z) : Z := fold_right Z.add 0%Z l.

(** Number of unordered pairs among [n] raters. *)
Definition pairs_of (n : Z) : Z := (n * (n - 1) / 2)%Z.

(** The matrix without its row [i], the other rows in their order. *)
Definition remove_row (i : nat) (m : matrix) : matrix :=
  firstn i m ++ skipn (S i) m.

(** The quantities of the formula, in an arithmetic [A]. *)
Section Formula.
Variable A : arith.
Variable m : matrix.

Definition agreements_of : Z := zsum (map agreeing_pairs (columns m)).

Definition total_pairs_of : Z :=
  (Z.of_nat (n_items m) * Z.of_nat (length m) * (Z.of_nat (length m) - 1) / 2)%Z.

Definition po_of : num A := truediv_int A agreements_of total_pairs_of.

Definition p_pos_of : num A :=
  np_mean A (map (fun col => truediv_int A (ones col) (Z.of_nat (length m)))
                 (columns m)).

Definition p_neg_of : num A := sub A (of_int A 1) p_pos_of.

Definition p_e_of : num A :=
  add A (mul A p_pos_of p_pos_of) (mul A p_neg_of p_neg_of).

Definition kappa_of : num A :=
  div A (sub A po_of p_e_of) (sub A (of_int A 1) p_e_of).
End Formula.

(** [x] is an ordinary number: it compares equal to itself, which NaN does
    not. *)
Definition is_num (A : arith) (x : num A) : Prop := eqb A x x = true.

(** The comparisons of [A] order its ordinary numbers totally. *)
Record order_laws (A : arith) : Prop := {
  leb_refl : forall x, is_num A x -> leb A x x = true;
  leb_trans : forall x y z,
      leb A x y = true -> leb A y z = true -> leb A x z = true;
  ltb_leb : forall x y, ltb A x y = true -> leb A x y = true;
  not_ltb_leb : forall x y,
      is_num A x -> is_num A y -> ltb A x y = false -> leb A y x = true
}.

(** The kappa of the matrix without rater [i]. *)
Definition kappa_without (A : arith) (m : matrix) (i : nat) : result (num A) :=
  '(kappa, _) <- fleiss_kappa_binary A (remove_row i m) ;; Ok kappa.

(** The columns of [m] rearranged as [sigma] lists them, in every row. *)
Definition permute_columns (sigma : list nat) (m : matrix) : matrix :=
  map (fun row => map (fun i => nth i row 0%Z) sigma) m.

(** All raters gave the same ratings. *)
Definition identical_rows (m : matrix) : Prop :=
  forall r1 r2, In r1 m -> In r2 m -> r1 = r2.

(** Every rating of the matrix is [v]. *)
Definition constant_matrix (v : Z) (m : matrix) : Prop :=
  Forall (Forall (fun x => x = v)) m.

(** The integer [z] as a rational. *)
Definition zq (z : Z) : Qc := Q2Qc (inject_Z z).

Definition qcsum (l : list Qc) : Qc := fold_right Qcplus (Q2Qc 0) l.

(** The quantities of the formula as rationals. *)
Definition q_po (m : matrix) : Qc :=
  (zq (agreements_of m) / zq (total_pairs_of m))%Qc.

Definition q_fractions (m : matrix) : list Qc :=
  map (fun col => (zq (ones col) / zq (Z.of_nat (length m)))%Qc) (columns m).

Definition q_p_pos (m : matrix) : Qc :=
  (qcsum (q_fractions m) / zq (Z.of_nat (n_items m)))%Qc.

Definition q_p_e (m : matrix) : Qc :=
  (q_p_pos m * q_p_pos m + (1 - q_p_pos m) * (1 - q_p_pos m))%Qc.

(** The example of the source, lines 95 to 99. *)
Definition example_ratings : matrix :=
  [[1; 0; 1; 1; 0]; [1; 0; 1; 1; 0]; [1; 1; 1; 0; 0]]%Z.

(** Two raters who agree on nothing and on everything. *)
Definition two_raters : matrix := [[1; 0]; [0; 1]]%Z.

(** All ratings equal: the expected agreement is 1. *)
Definition all_zero : matrix := [[0; 0]; [0; 0]]%Z.

(** Removing the first rater leaves only equal ratings. *)
Definition dissenter_first : matrix := [[0; 1]; [0; 0]; [0; 0]]%Z.

(** Three raters, the first item rated differently from the others; and a
    rotation of the items. *)
Definition three_by_three : matrix := [[1; 1; 1]; [0; 1; 1]; [0; 1; 1]]%Z.
Definition rotation : list nat := [1; 2; 0]%nat.

(* ================================================================= *)
(** ** The user interface, lines 112 to 138

    The script reads one text per reviewer, parses it into a row of the
    matrix, and on a press of the button shows the kappa and the result of
    the analysis, or an error.  What Streamlit displays is a list of
    events, in order.  The numbers written into the displayed lines are kept
    as numbers. *)

Definition msg_incomplete : string :=
  "Please ensure all reviewers have rated all items."%string.

Inductive ui_event (A : arith) : Type :=
| StError (msg : string)
    (** [st.error(msg)] *)
| StWriteKappa (kappa : num A)
    (** the line "Fleiss' Kappa: " followed by [kappa] *)
| StWriteReviewer (reviewer : nat)
    (** the line "Most contributory reviewer to lower Kappa score: Reviewer "
        followed by [reviewer] *)
| StWriteHighest (kappa : num A).
    (** the line "Highest Kappa score obtained by excluding a reviewer: "
        followed by [kappa] *)

Arguments StError {A} msg.
Arguments StWriteKappa {A} kappa.
Arguments StWriteReviewer {A} reviewer.
Arguments StWriteHighest {A} kappa.

(** [rating.split(',')]: the pieces between the commas; there is always at
    least one piece. *)
Fixpoint split_comma (rating : string) : list string :=
  match rating with
  | EmptyString => [EmptyString]
  | String c rest =>
      if Ascii.eqb c ","%char then EmptyString :: split_comma rest
      else
        match split_comma rest with
        | piece :: pieces => String c piece :: pieces
        | [] => [String c EmptyString]
        end
  end.

(** [list(map(int, rating.split(',')))], line 121.  The builtin [int] on a
    string is a parameter, [py_int]. *)
Definition parse_rating (py_int : string -> result Z) (rating : string)
  : result (list Z) :=
  map_result py_int (split_comma rating).

(** The loop of lines 117 to 121 over the texts entered for the reviewers
    [0 .. num_reviewers - 1]: an empty text is skipped; an exception of
    [int] leaves the script, since the loop is outside the [try]. *)
Fixpoint read_ratings (py_int : string -> result Z) (texts : list string)
         (ratings : matrix) : result matrix :=
  match texts with
  | [] => Ok ratings
  | rating :: texts' =>
      if (String.length rating =? 0)%nat
      then read_ratings py_int texts' ratings
      else
        row <- parse_rating py_int rating ;;
        read_ratings py_int texts' (ratings ++ [row])
  end.

(** The body of the [try], lines 126 to 135: the events displayed, and the
    exception that ended it, if any. *)
Definition calculate_body (A : arith) (ratings : matrix)
           (num_reviewers num_items : nat) : list (ui_event A) * option exn :=
  if negb (length ratings =? num_reviewers)%nat
     || existsb (fun r => negb (length r =? num_items)%nat) ratings
  then ([StError msg_incomplete], None)
  else
    match fleiss_kappa_binary A ratings with
    | Raise e => ([], Some e)
    | Ok (kappa, po) =>
        match reviewer_contribution_analysis A ratings with
        | Raise e => ([StWriteKappa kappa], Some e)
        | Ok (most_contributory_reviewer, highest_kappa, kappa_scores) =>
            ([StWriteKappa kappa;
              StWriteReviewer (most_contributory_reviewer + 1);
              StWriteHighest highest_kappa], None)
        end
    end.

(** What a press of the button does, lines 124 to 138: a [ValueError] of the
    body is displayed as "Error: " followed by its message; any other
    exception leaves the script. *)
Definition on_calculate (A : arith) (ratings : matrix)
           (num_reviewers num_items : nat) : list (ui_event A) * option exn :=
  match calculate_body A ratings num_reviewers num_items with
  | (shown, Some (ValueError msg)) =>
      (shown ++ [StError (String.append "Error: " msg)], None)
  | outcome => outcome
  end.

(* ================================================================= *)
(** ** Further notions *)

(** Exchanging the two categories. *)
Definition flip (v : Z) : Z := (1 - v)%Z.

Definition flip_matrix (m : matrix) : matrix := map (map flip) m.

(** The comparison [<] of [A] is a strict order. *)
Record strict_order_laws (A : arith) : Prop := {
  ltb_irrefl : forall x, ltb A x x = false;
  ltb_trans : forall x y z,
      ltb A x y = true -> ltb A y z = true -> ltb A x z = true
}.

(** NaN is neither below nor above anything: a [<] that holds relates two
    ordinary numbers. *)
Definition nan_unordered (A : arith) : Prop :=
  forall x y, ltb A x y = true -> is_num A x /\ is_num A y.

(** The five messages of the validation. *)
Definition validation_messages : list string :=
  [msg_empty; msg_raters; msg_lengths; msg_binary; msg_items].


(** Number of occurrences of the comma in a text. *)
Fixpoint count_commas (rating : string) : nat :=
  match rating with
  | EmptyString => 0
  | String c rest =>
      ((if Ascii.eqb c ","%char then 1 else 0) + count_commas rest)%nat
  end.

(** The texts that are not empty, in order: the ones line 120 lets through. *)
Definition entered (texts : list string) : list string :=
  filter (fun rating => negb (String.length rating =? 0)%nat) texts.

(** A reading of the texts "0" and "1" only, for the examples on the user
    interface; the theorems on the user interface hold for every reading of
    the pieces. *)
Definition bit_int (piece : string) : result Z :=
  if String.eqb piece "0" then Ok 0%Z
  else if String.eqb piece "1" then Ok 1%Z
  else Raise (ValueError "invalid literal for int() with base 10"%string).

(** Removing the second rater leaves only equal ratings. *)
Definition dissenter_second : matrix := [[0; 0]; [0; 1]; [0; 0]]%Z.

(** A matrix with a non-binary first row, for the analyzer. *)
Definition bad_first_row : matrix := [[2; 0]; [0; 1]; [1; 1]]%Z.

(* ================================================================= *)
(** ** Basic facts on the monad and on loops *)

Lemma for_each_app (S : Type) (xs ys : list nat) body (s : S) :
  for_each (xs ++ ys) body s = (s' <- for_each xs body s ;; for_each ys body s').
Proof.
  revert s; induction xs as [|x xs IH]; intros s; simpl; [reflexivity|].
  destruct (body x s); simpl; auto.
Qed.

Lemma map_result_ok (X Y : Type) (f : X -> result Y) (g : X -> Y) (xs : list X) :
  (forall x, In x xs -> f x = Ok (g x)) ->
  map_result f xs = Ok (map g xs).
Proof.
  induction xs as [|x xs IH]; intros H; simpl; [reflexivity|].
  rewrite (H x) by (left; reflexivity). simpl.
  rewrite IH by (intros; apply H; right; assumption). reflexivity.
Qed.

Lemma getitem_nth (X : Type) (l : list X) (i : nat) (d : X) :
  (i < length l)%nat -> getitem l i = Ok (nth i l d).
Proof.
  intros H. unfold getitem.
  rewrite (nth_error_nth' l d H). reflexivity.
Qed.

(* ================================================================= *)
(** ** Rectangular matrices and their columns *)

Lemma column_length i m : length (column i m) = length m.
Proof. apply length_map. Qed.

Lemma column_nth i j m :
  nth j (column i m) 0%Z = nth i (nth j m []) 0%Z.
Proof.
  unfold column. revert j; induction m as [|r m IH]; intros [|j]; simpl; auto;
    destruct i; reflexivity.
Qed.

Lemma rectangular_nth N m j :
  rectangular N m -> (j < length m)%nat -> length (nth j m []) = N.
Proof.
  intros H Hj. unfold rectangular in H. rewrite Forall_forall in H.
  apply H, nth_In, Hj.
Qed.

Lemma skipn_cons_nth (l : list Z) (s : nat) :
  (s < length l)%nat -> skipn s l = nth s l 0%Z :: skipn (S s) l.
Proof.
  revert s; induction l as [|x l IH]; intros s H; simpl in H; [lia|].
  destruct s; [reflexivity|]. simpl. apply IH. lia.
Qed.

Lemma pairs_of_succ (n : Z) : (0 <= n)%Z -> pairs_of (n + 1) = (n + pairs_of n)%Z.
Proof.
  intros _. unfold pairs_of.
  replace ((n + 1) * (n + 1 - 1))%Z with (n * 2 + n * (n - 1))%Z by ring.
  rewrite Z.div_add_l by lia. reflexivity.
Qed.

(** One execution of the loop body on a rectangular matrix. *)
Lemma count_pair_ok N m i j k a t :
  rectangular N m -> (i < N)%nat -> (j < length m)%nat -> (k < length m)%nat ->
  count_pair m i j k (a, t) =
  Ok ((a + (if (nth j (column i m) 0 =? nth k (column i m) 0)%Z then 1 else 0))%Z,
      (t + 1)%Z).
Proof.
  intros Hr Hi Hj Hk. unfold count_pair.
  rewrite (getitem_nth m [] Hj). simpl.
  rewrite (getitem_nth (nth j m []) 0%Z) by (rewrite (rectangular_nth Hr Hj); exact Hi).
  simpl. rewrite (getitem_nth m [] Hk). simpl.
  rewrite (getitem_nth (nth k m []) 0%Z) by (rewrite (rectangular_nth Hr Hk); exact Hi).
  simpl. rewrite !column_nth.
  destruct (_ =? _)%Z; f_equal; f_equal; lia.
Qed.

(** The innermost loop, over the raters [k] after [j]. *)
Lemma inner_loop N m i j n s a t :
  rectangular N m -> (i < N)%nat -> (j < length m)%nat ->
  (s + n = length m)%nat ->
  for_each (seq s n) (count_pair m i j) (a, t) =
  Ok ((a + count_eq (nth j (column i m) 0%Z) (skipn s (column i m)))%Z,
      (t + Z.of_nat n)%Z).
Proof.
  intros Hr Hi Hj. revert s a t.
  induction n as [|n IH]; intros s a t Hs.
  - simpl. rewrite skipn_all2 by (rewrite column_length; lia).
    simpl. f_equal. f_equal; lia.
  - cbn [seq for_each].
    rewrite (count_pair_ok a t Hr Hi Hj) by lia. cbn [bind].
    rewrite IH by lia.
    rewrite (@skipn_cons_nth (column i m) s) by (rewrite column_length; lia).
    cbn [count_eq]. f_equal. f_equal; lia.
Qed.

(** The loop over the raters [j]. *)
Lemma middle_loop N m i n s a t :
  rectangular N m -> (i < N)%nat -> (s + n = length m)%nat ->
  for_each (seq s n)
           (fun j => for_each (range (j + 1) (length m)) (count_pair m i j))
           (a, t) =
  Ok ((a + agreeing_pairs (skipn s (column i m)))%Z,
      (t + pairs_of (Z.of_nat n))%Z).
Proof.
  intros Hr Hi. revert s a t.
  induction n as [|n IH]; intros s a t Hs.
  - simpl. rewrite skipn_all2 by (rewrite column_length; lia).
    change (pairs_of 0) with 0%Z.
    simpl. f_equal. f_equal; lia.
  - cbn [seq for_each]. unfold range at 1.
    rewrite (@inner_loop N m i s (length m - (s + 1)) (s + 1)) by (auto; lia).
    cbn [bind]. rewrite IH by lia.
    rewrite (@skipn_cons_nth (column i m) s) by (rewrite column_length; lia).
    cbn [agreeing_pairs].
    replace (s + 1)%nat with (S s) by lia.
    f_equal. f_equal; [lia|].
    replace (Z.of_nat (S n)) with (Z.of_nat n + 1)%Z by lia.
    rewrite pairs_of_succ by lia. lia.
Qed.

(** The loop over the items [i]. *)
Lemma outer_loop N m n s a t :
  rectangular N m -> (s + n <= N)%nat ->
  for_each (seq s n)
           (fun i => for_each (range 0 (length m))
              (fun j => for_each (range (j + 1) (length m)) (count_pair m i j)))
           (a, t) =
  Ok ((a + zsum (map (fun i => agreeing_pairs (column i m)) (seq s n)))%Z,
      (t + Z.of_nat n * pairs_of (Z.of_nat (length m)))%Z).
Proof.
  intros Hr. revert s a t.
  induction n as [|n IH]; intros s a t Hs.
  - simpl. f_equal. f_equal; lia.
  - cbn [seq for_each map zsum fold_right]. unfold range at 1.
    rewrite Nat.sub_0_r.
    rewrite (@middle_loop N m s (length m) 0) by (auto; lia).
    cbn [bind skipn]. rewrite IH by lia.
    f_equal. f_equal; [unfold zsum; lia|].
    replace (Z.of_nat (S n)) with (Z.of_nat n + 1)%Z by lia. lia.
Qed.

Lemma total_pairs_eq (N R : Z) :
  (N * R * (R - 1) / 2 = N * pairs_of R)%Z.
Proof.
  unfold pairs_of.
  assert (E : exists q, (R * (R - 1) = 2 * q)%Z).
  { destruct (Z.Even_or_Odd R) as [[q Hq]|[q Hq]].
    - exists (q * (R - 1))%Z. rewrite Hq at 1. ring.
    - exists (R * q)%Z. rewrite Hq at 2. ring. }
  destruct E as [q Hq].
  rewrite <- (Z.mul_assoc N R (R - 1)), Hq.
  replace (N * (2 * q))%Z with (N * q * 2)%Z by ring.
  replace (2 * q)%Z with (q * 2)%Z by ring.
  rewrite !Z.div_mul by lia. reflexivity.
Qed.

Lemma count_agreements_ok m :
  rectangular (n_items m) m ->
  count_agreements m (length m) (n_items m) =
  Ok (agreements_of m, total_pairs_of m).
Proof.
  intros Hr. unfold count_agreements, range. rewrite Nat.sub_0_r.
  rewrite (@outer_loop (n_items m) m (n_items m) 0) by (auto; lia).
  unfold agreements_of, total_pairs_of, columns, range.
  rewrite map_map, total_pairs_eq. f_equal.
Qed.

(* ================================================================= *)
(** ** The input validation *)

Lemma nodup_singleton (l : list nat) (n : nat) :
  l <> [] -> Forall (fun x => x = n) l -> nodup Nat.eq_dec l = [n].
Proof.
  induction l as [|x l IH]; intros Hne Hall; [congruence|].
  inversion Hall as [|? ? Hx Hl]; subst. simpl.
  destruct l as [|y l].
  - reflexivity.
  - destruct (in_dec Nat.eq_dec n (y :: l)) as [_|Hn].
    + apply IH; [discriminate | assumption].
    + exfalso. apply Hn. inversion Hl; subst. left; reflexivity.
Qed.

Lemma nodup_one_all_equal (l : list nat) (n : nat) :
  nodup Nat.eq_dec l = [n] -> Forall (fun x => x = n) l.
Proof.
  intros H. apply Forall_forall. intros x Hx.
  apply (nodup_In Nat.eq_dec) in Hx. rewrite H in Hx.
  destruct Hx as [Hx|[]]. congruence.
Qed.

(** Check 3 passes exactly when all rows have the length of the first. *)
Lemma distinct_lengths_one (m : matrix) :
  m <> [] ->
  (distinct_lengths m = 1%nat <-> rectangular (n_items m) m).
Proof.
  intros Hne. unfold distinct_lengths, rectangular. split.
  - intros H.
    destruct (nodup Nat.eq_dec (map (@length Z) m)) as [|n [|? ?]] eqn:E;
      try discriminate.
    apply nodup_one_all_equal in E.
    rewrite Forall_map in E.
    destruct m as [|r m]; [congruence|].
    unfold n_items; simpl.
    inversion E as [|? ? Hr _]; subst.
    exact E.
  - intros H.
    rewrite (@nodup_singleton (map (@length Z) m) (n_items m)).
    + reflexivity.
    + destruct m; [congruence | discriminate].
    + rewrite Forall_map. exact H.
Qed.

Lemma not_binary_false (v : Z) : not_binary v = false <-> is_binary v.
Proof.
  unfold not_binary, is_binary. rewrite negb_false_iff, orb_true_iff, !Z.eqb_eq.
  tauto.
Qed.

(** Check 4 passes exactly when every value is 0 or 1. *)
Lemma all_binary (m : matrix) :
  existsb not_binary (concat m) = false <-> binary m.
Proof.
  unfold binary. induction m as [|r m IH]; simpl.
  - split; auto.
  - rewrite existsb_app, orb_false_iff, IH. split.
    + intros [Hr Hm]. constructor; [|assumption].
      clear -Hr. induction r as [|v r IHr]; simpl in *; constructor.
      * apply not_binary_false. apply orb_false_iff in Hr. tauto.
      * apply IHr. apply orb_false_iff in Hr. tauto.
    + intros H. inversion H as [|? ? Hr Hm]; subst. split; [|assumption].
      clear -Hr. induction Hr as [|v r Hv _ IHr]; simpl; [reflexivity|].
      apply orb_false_iff. split; [apply not_binary_false; assumption | assumption].
Qed.

(** The validation passes exactly on the valid matrices. *)
Lemma validate_ok_iff (m : matrix) : validate m = Ok tt <-> valid_matrix m.
Proof.
  unfold valid_matrix. destruct m as [|r0 m'] eqn:Em.
  - simpl. split; [discriminate | intros [H _]; simpl in H; lia].
  - rewrite <- Em.
    assert (Hne : m <> []) by (rewrite Em; discriminate).
    pose proof (distinct_lengths_one Hne) as Hd.
    pose proof (all_binary m) as Hb.
    assert (Hv : validate m =
      if (length m <? 2)%nat then Raise (ValueError msg_raters)
      else if negb (distinct_lengths m =? 1)%nat then Raise (ValueError msg_lengths)
      else if existsb not_binary (concat m) then Raise (ValueError msg_binary)
      else if (n_items m <? 2)%nat then Raise (ValueError msg_items)
      else Ok tt) by (rewrite Em; reflexivity).
    rewrite Hv.
    destruct (Nat.ltb_spec (length m) 2).
    { split; [discriminate | intros [? _]; lia]. }
    destruct (Nat.eqb_spec (distinct_lengths m) 1) as [E1|E1]; simpl.
    2:{ split; [discriminate | intros (_ & _ & Hr & _); apply Hd in Hr; contradiction]. }
    destruct (existsb not_binary (concat m)) eqn:E2.
    { split; [discriminate|]. intros (_ & _ & _ & Hbin).
      apply Hb in Hbin. discriminate. }
    destruct (Nat.ltb_spec (n_items m) 2).
    { split; [discriminate | intros (_ & ? & _); lia]. }
    split; [|reflexivity]. intros _.
    repeat split; try assumption; [apply Hd; assumption | apply Hb; reflexivity].
Qed.

(* ================================================================= *)
(** ** [zip] yields the columns; the column sums *)

Lemma heads_rectangular (n : nat) (rows : matrix) :
  rectangular (S n) rows ->
  heads rows = Some (column 0 rows, map (@tl Z) rows).
Proof.
  unfold rectangular. induction rows as [|r rows IH]; intros H; [reflexivity|].
  inversion H as [|? ? Hr Hrows]; subst.
  destruct r as [|x r]; [discriminate|].
  simpl. rewrite IH by assumption. reflexivity.
Qed.

Lemma column_succ (i : nat) (rows : matrix) :
  column (S i) rows = column i (map (@tl Z) rows).
Proof.
  unfold column. rewrite map_map. apply map_ext.
  intros [|x r]; [destruct i; reflexivity | reflexivity].
Qed.

Lemma rectangular_tl (n : nat) (rows : matrix) :
  rectangular (S n) rows -> rectangular n (map (@tl Z) rows).
Proof.
  unfold rectangular. intros H. rewrite Forall_map.
  eapply Forall_impl; [|exact H].
  intros [|x r] Hr; simpl in *; [discriminate | lia].
Qed.

Lemma zip_from_columns (first : list Z) (rest : matrix) :
  rectangular (length first) rest ->
  zip_from first rest =
  map (fun i => column i (first :: rest)) (seq 0 (length first)).
Proof.
  revert rest. induction first as [|x first IH]; intros rest H; [reflexivity|].
  cbn [zip_from length]. rewrite (heads_rectangular H).
  rewrite IH by (apply rectangular_tl; assumption).
  cbn [seq map]. f_equal.
  rewrite <- seq_shift, map_map. apply map_ext. intros i.
  rewrite column_succ. reflexivity.
Qed.

Lemma zip_star_columns (m : matrix) :
  rectangular (n_items m) m -> zip_star m = columns m.
Proof.
  destruct m as [|r rs]; [reflexivity|].
  unfold n_items, columns; simpl. intros H.
  apply zip_from_columns. inversion H; assumption.
Qed.

Lemma fold_left_add_zsum (l : list Z) (a : Z) :
  fold_left Z.add l a = (a + zsum l)%Z.
Proof.
  revert a. induction l as [|x l IH]; intros a; simpl; [lia|].
  rewrite IH. unfold zsum. lia.
Qed.

Lemma py_sum_zsum (l : list Z) : py_sum l = zsum l.
Proof. unfold py_sum. rewrite fold_left_add_zsum. reflexivity. Qed.

Lemma zsum_ones (col : list Z) : Forall is_binary col -> zsum col = ones col.
Proof.
  unfold ones. induction 1 as [|v col Hv _ IH]; simpl; [reflexivity|].
  rewrite IH. destruct Hv; subst; reflexivity.
Qed.

Lemma column_binary (i : nat) (m : matrix) :
  binary m -> Forall is_binary (column i m).
Proof.
  unfold binary, column. intros H. rewrite Forall_map.
  eapply Forall_impl; [|exact H]. intros row Hrow.
  destruct (nth_in_or_default i row 0%Z) as [Hin|Hd].
  - rewrite Forall_forall in Hrow. apply Hrow, Hin.
  - rewrite Hd. left; reflexivity.
Qed.

Lemma columns_binary (m : matrix) (col : list Z) :
  binary m -> In col (columns m) -> Forall is_binary col.
Proof.
  intros Hb Hin. unfold columns in Hin. apply in_map_iff in Hin.
  destruct Hin as (i & <- & _). apply column_binary, Hb.
Qed.

(** On a valid matrix the program runs through and returns the value of the
    formula. *)
Lemma fleiss_kappa_binary_valid (A : arith) (m : matrix) :
  valid_matrix m -> fleiss_kappa_binary A m = Ok (kappa_of A m, po_of A m).
Proof.
  intros Hv. pose proof Hv as (HR & HN & Hrect & Hbin).
  unfold fleiss_kappa_binary.
  rewrite (proj2 (validate_ok_iff m) Hv). cbn [bind].
  rewrite (getitem_nth m [] (i := 0)) by lia. cbn [bind].
  replace (length (nth 0 m [])) with (n_items m)
    by (unfold n_items; destruct m; reflexivity).
  rewrite (count_agreements_ok Hrect). cbn [bind].
  assert (Htot : total_pairs_of m <> 0%Z).
  { unfold total_pairs_of. rewrite total_pairs_eq.
    assert (0 < pairs_of (Z.of_nat (length m)))%Z.
    { unfold pairs_of. apply Z.div_str_pos. nia. }
    nia. }
  unfold py_truediv at 1. rewrite (proj2 (Z.eqb_neq _ _) Htot). cbn [bind].
  rewrite (zip_star_columns Hrect).
  rewrite (@map_result_ok _ _ _
             (fun col => truediv_int A (ones col) (Z.of_nat (length m)))).
  - reflexivity.
  - intros col Hcol. unfold py_truediv.
    replace (Z.of_nat (length m) =? 0)%Z with false by (symmetry; apply Z.eqb_neq; lia).
    rewrite py_sum_zsum, (zsum_ones (@columns_binary m col Hbin Hcol)). reflexivity.
Qed.

(* ================================================================= *)
(** ** The reduced matrices of the analyzer *)

Lemma map_nth_seq (m : matrix) :
  map (fun j => nth j m []) (seq 0 (length m)) = m.
Proof.
  induction m as [|r m IH]; [reflexivity|].
  cbn [length seq map nth]. f_equal.
  rewrite <- seq_shift, map_map. exact IH.
Qed.

Lemma filter_map_succ (f : nat -> bool) (l : list nat) :
  filter f (map S l) = map S (filter (fun j => f (S j)) l).
Proof.
  induction l as [|x l IH]; simpl; [reflexivity|].
  destruct (f (S x)); simpl; rewrite IH; reflexivity.
Qed.

Lemma filter_true (X : Type) (f : X -> bool) (l : list X) :
  (forall x, f x = true) -> filter f l = l.
Proof.
  intros H. induction l as [|x l IH]; simpl; [reflexivity|].
  rewrite H, IH. reflexivity.
Qed.

(** The list comprehension of line 84 builds the matrix without row [i]. *)
Lemma comprehension_remove_row (m : matrix) (i : nat) :
  map (fun j => nth j m [])
      (filter (fun j => negb (j =? i)%nat) (seq 0 (length m))) =
  remove_row i m.
Proof.
  unfold remove_row. revert i. induction m as [|r m IH]; intros i.
  - destruct i; reflexivity.
  - cbn [length seq]. rewrite <- seq_shift.
    destruct i as [|i].
    + cbn [filter Nat.eqb negb]. rewrite filter_map_succ.
      rewrite filter_true by reflexivity.
      rewrite map_map. cbn [firstn skipn app nth]. apply map_nth_seq.
    + cbn [filter Nat.eqb negb map nth]. rewrite filter_map_succ.
      rewrite map_map. cbn [nth firstn skipn app Nat.eqb]. f_equal. apply IH.
Qed.

Lemma reduced_ratings_ok (m : matrix) (i : nat) :
  reduced_ratings m (length m) i = Ok (remove_row i m).
Proof.
  unfold reduced_ratings, range. rewrite Nat.sub_0_r.
  rewrite (@map_result_ok _ _ _ (fun j => nth j m [])).
  - rewrite comprehension_remove_row. reflexivity.
  - intros j Hj. apply filter_In in Hj. destruct Hj as [Hj _].
    apply in_seq in Hj. apply getitem_nth. lia.
Qed.

Lemma remove_row_length (m : matrix) (i : nat) :
  (i < length m)%nat -> length (remove_row i m) = (length m - 1)%nat.
Proof.
  intros H. unfold remove_row.
  rewrite length_app, length_firstn, length_skipn. lia.
Qed.

Lemma remove_row_incl (m : matrix) (i : nat) (r : list Z) :
  In r (remove_row i m) -> In r m.
Proof.
  unfold remove_row. intros H. apply in_app_or in H.
  rewrite <- (firstn_skipn i m).
  destruct H as [H|H]; apply in_or_app; [left; exact H|right].
  rewrite <- (firstn_skipn 1 (skipn i m)). apply in_or_app. right.
  rewrite skipn_skipn. exact H.
Qed.

(** Removing one of at least 3 raters leaves a valid matrix. *)
Lemma remove_row_valid (m : matrix) (i : nat) :
  valid_matrix m -> (3 <= length m)%nat -> (i < length m)%nat ->
  valid_matrix (remove_row i m) /\ n_items (remove_row i m) = n_items m.
Proof.
  intros (HR & HN & Hrect & Hbin) H3 Hi.
  assert (Hlen : length (remove_row i m) = (length m - 1)%nat)
    by (apply remove_row_length; assumption).
  assert (Hrect' : rectangular (n_items m) (remove_row i m)).
  { unfold rectangular in *. rewrite Forall_forall in *.
    intros r Hr. apply Hrect. eapply remove_row_incl; eassumption. }
  assert (HN' : n_items (remove_row i m) = n_items m).
  { unfold n_items at 1. destruct (remove_row i m) as [|r0 rest] eqn:E.
    - simpl in Hlen. lia.
    - simpl. inversion Hrect'; assumption. }
  split; [|exact HN'].
  unfold valid_matrix. rewrite HN'. repeat split; try assumption; try lia.
  unfold binary in *. rewrite Forall_forall in *.
  intros r Hr. apply Hbin. eapply remove_row_incl; eassumption.
Qed.

(* ================================================================= *)
(** ** The analyzer in normal form *)

Lemma scores_loop (A : arith) (m : matrix) (xs : list nat) (acc : list (num A)) :
  for_each xs
    (fun i kappa_scores =>
       reduced <- reduced_ratings m (length m) i ;;
       '(kappa, _) <- fleiss_kappa_binary A reduced ;;
       Ok (kappa_scores ++ [kappa]))
    acc =
  (ks <- map_result (kappa_without A m) xs ;; Ok (acc ++ ks)).
Proof.
  revert acc. induction xs as [|i xs IH]; intros acc.
  - simpl. rewrite app_nil_r. reflexivity.
  - cbn [for_each map_result]. rewrite reduced_ratings_ok. cbn [bind].
    unfold kappa_without at 1.
    destruct (fleiss_kappa_binary A (remove_row i m)) as [[kappa po]|e];
      cbn [bind]; [|reflexivity].
    rewrite IH.
    destruct (map_result (kappa_without A m) xs) as [ks|e]; cbn [bind];
      [|reflexivity].
    rewrite <- app_assoc. reflexivity.
Qed.

Lemma analysis_unfold (A : arith) (m : matrix) :
  reviewer_contribution_analysis A m =
  (ks <- map_result (kappa_without A m) (seq 0 (length m)) ;;
   highest <- py_max A ks ;;
   idx <- py_index A ks highest ;;
   Ok (idx, snd highest, ks)).
Proof.
  unfold reviewer_contribution_analysis. rewrite scores_loop.
  unfold range. rewrite Nat.sub_0_r.
  destruct (map_result (kappa_without A m) (seq 0 (length m))); reflexivity.
Qed.

Lemma map_result_length (X Y : Type) (f : X -> result Y) xs ys :
  map_result f xs = Ok ys -> length ys = length xs.
Proof.
  revert ys. induction xs as [|x xs IH]; intros ys H; simpl in H.
  - inversion H. reflexivity.
  - destruct (f x); simpl in H; [|discriminate].
    destruct (map_result f xs); simpl in H; [|discriminate].
    inversion H; subst. simpl. f_equal. apply IH. reflexivity.
Qed.

Lemma index_from_bound (A : arith) (l : list (num A)) pos target idx :
  index_from A l pos target = Ok idx -> (pos <= idx < pos + length l)%nat.
Proof.
  revert pos. induction l as [|x l IH]; intros pos H; simpl in H; [discriminate|].
  destruct ((pos =? fst target)%nat || eqb A x (snd target)).
  - inversion H; subst. simpl. lia.
  - apply IH in H. simpl. lia.
Qed.

(** What [list.index] returns: the first position that holds the searched
    object or a value equal to it. *)
Lemma index_from_first (A : arith) (l : list (num A)) pos target idx d :
  index_from A l pos target = Ok idx ->
  ((idx = fst target \/ eqb A (nth (idx - pos) l d) (snd target) = true) /\
   forall j, (pos <= j < idx)%nat ->
             j <> fst target /\ eqb A (nth (j - pos) l d) (snd target) = false).
Proof.
  revert pos. induction l as [|x l IH]; intros pos H; simpl in H; [discriminate|].
  destruct ((pos =? fst target)%nat || eqb A x (snd target)) eqn:E.
  - inversion H; subst. rewrite Nat.sub_diag. simpl. split.
    + apply orb_true_iff in E. destruct E as [E|E]; [left|right; exact E].
      apply Nat.eqb_eq in E. exact E.
    + intros j Hj. lia.
  - pose proof (index_from_bound _ _ _ _ H) as Hb.
    apply IH in H. destruct H as [H1 H2].
    apply orb_false_iff in E. destruct E as [E1 E2].
    replace (idx - pos)%nat with (S (idx - S pos)) by lia. simpl. split.
    + exact H1.
    + intros j Hj. destruct (Nat.eq_dec j pos) as [->|Hne].
      * rewrite Nat.sub_diag. split; [apply Nat.eqb_neq; exact E1 | exact E2].
      * replace (j - pos)%nat with (S (j - S pos)) by lia.
        apply H2. lia.
Qed.

(** The search succeeds when the searched object is in the list. *)
Lemma index_from_found (A : arith) (l : list (num A)) pos target :
  (pos <= fst target < pos + length l)%nat ->
  exists idx, index_from A l pos target = Ok idx.
Proof.
  revert pos. induction l as [|x l IH]; intros pos H; simpl in *; [lia|].
  destruct ((pos =? fst target)%nat || eqb A x (snd target)) eqn:E.
  - eexists; reflexivity.
  - apply IH. apply orb_false_iff in E. destruct E as [E _].
    apply Nat.eqb_neq in E. lia.
Qed.

(** The object kept by [max] is an element of the list, at the recorded
    position. *)
Lemma max_loop_position (A : arith) (items before : list (num A)) cur d :
  (fst cur < length before)%nat -> nth (fst cur) before d = snd cur ->
  let r := max_loop A items (length before) cur in
  (fst r < length (before ++ items))%nat /\
  nth (fst r) (before ++ items) d = snd r.
Proof.
  revert before cur. induction items as [|item items IH]; intros before cur Hlt Hnth.
  - simpl. rewrite app_nil_r. auto.
  - cbn [max_loop].
    replace (before ++ item :: items) with ((before ++ [item]) ++ items)
      by (rewrite <- app_assoc; reflexivity).
    replace (S (length before)) with (length (before ++ [item]))
      by (rewrite length_app; simpl; lia).
    apply IH.
    + rewrite length_app; simpl.
      destruct (gtb A item (snd cur)); simpl; lia.
    + destruct (gtb A item (snd cur)); simpl.
      * rewrite nth_middle. reflexivity.
      * rewrite app_nth1 by assumption. assumption.
Qed.

Lemma py_max_position (A : arith) (l : list (num A)) (h : nat * num A) d :
  py_max A l = Ok h -> (fst h < length l)%nat /\ nth (fst h) l d = snd h.
Proof.
  destruct l as [|x l]; simpl; [discriminate|]. intros H; inversion H; subst.
  apply (@max_loop_position A l [x] (0%nat, x) d); simpl; auto.
Qed.

(** With totally ordered numbers, [max] returns a greatest element. *)
Lemma max_loop_greatest (A : arith) (items : list (num A)) :
  order_laws A ->
  forall (seen : list (num A)) (pos : nat) (cur : nat * num A),
    (forall x, In x items -> is_num A x) ->
    is_num A (snd cur) ->
    (forall x, In x seen -> leb A x (snd cur) = true) ->
    forall x, In x (seen ++ items) ->
              leb A x (snd (max_loop A items pos cur)) = true.
Proof.
  intros L. induction items as [|item items IH]; intros seen pos cur Hnum Hcur Hseen x Hx.
  - simpl. rewrite app_nil_r in Hx. auto.
  - cbn [max_loop].
    assert (Hitem : is_num A item) by (apply Hnum; left; reflexivity).
    apply (IH (seen ++ [item])).
    + intros y Hy. apply Hnum. right. exact Hy.
    + destruct (gtb A item (snd cur)); assumption.
    + intros y Hy. apply in_app_or in Hy. unfold gtb.
      destruct (ltb A (snd cur) item) eqn:E; cbn [snd].
      * destruct Hy as [Hy|[<-|[]]].
        -- apply (leb_trans L) with (y := snd cur); [auto | apply (ltb_leb L); exact E].
        -- apply (leb_refl L). exact Hitem.
      * destruct Hy as [Hy|[<-|[]]]; [auto|].
        apply (not_ltb_leb L); assumption.
    + rewrite <- app_assoc. exact Hx.
Qed.

Lemma py_max_greatest (A : arith) (l : list (num A)) (h : nat * num A) :
  order_laws A -> (forall x, In x l -> is_num A x) ->
  py_max A l = Ok h -> forall x, In x l -> leb A x (snd h) = true.
Proof.
  intros L Hnum. destruct l as [|x0 l]; simpl; [discriminate|].
  intros H; inversion H; subst. intros x Hx.
  apply (@max_loop_greatest A l L [x0]).
  - intros y Hy. apply Hnum. right; exact Hy.
  - apply Hnum. left; reflexivity.
  - intros y [<-|[]]. apply (leb_refl L). apply Hnum. left; reflexivity.
  - exact Hx.
Qed.

(** The per-exclusion scores of a valid matrix with at least 3 raters. *)
Lemma scores_valid (A : arith) (m : matrix) :
  valid_matrix m -> (3 <= length m)%nat ->
  map_result (kappa_without A m) (seq 0 (length m)) =
  Ok (map (fun i => kappa_of A (remove_row i m)) (seq 0 (length m))).
Proof.
  intros Hv H3. apply map_result_ok. intros i Hi. apply in_seq in Hi.
  unfold kappa_without.
  destruct (@remove_row_valid m i Hv H3) as [Hv' _]; [lia|].
  rewrite (fleiss_kappa_binary_valid A Hv'). reflexivity.
Qed.

(* ================================================================= *)
(** ** Exact arithmetic *)

Lemma this_plus (x y : Qc) : (this (x + y)%Qc == this x + this y)%Q.
Proof. apply Qred_correct. Qed.

Lemma this_mult (x y : Qc) : (this (x * y)%Qc == this x * this y)%Q.
Proof. apply Qred_correct. Qed.

Lemma this_opp (x : Qc) : (this (- x)%Qc == - this x)%Q.
Proof. apply Qred_correct. Qed.

Lemma this_minus (x y : Qc) : (this (x - y)%Qc == this x - this y)%Q.
Proof. unfold Qcminus. rewrite this_plus, this_opp. reflexivity. Qed.

Lemma this_inv (x : Qc) : (this (/ x)%Qc == / this x)%Q.
Proof. apply Qred_correct. Qed.

Lemma this_div (x y : Qc) : (this (x / y)%Qc == this x / this y)%Q.
Proof. unfold Qcdiv. rewrite this_mult, this_inv. reflexivity. Qed.

Lemma this_zq (z : Z) : (this (zq z) == inject_Z z)%Q.
Proof. apply Qred_correct. Qed.

(** Moves a goal or hypotheses on canonical rationals to plain rationals. *)
Ltac to_Q :=
  unfold Qcle, Qclt in *;
  repeat rewrite ?this_plus, ?this_mult, ?this_opp, ?this_minus, ?this_div,
                 ?this_inv, ?this_zq in *.

Lemma zq_eq (a b : Z) : zq a = zq b <-> a = b.
Proof.
  unfold zq. rewrite Q2Qc_eq_iff. split; [apply inject_Z_injective | intros ->; reflexivity].
Qed.

Lemma zq_le (a b : Z) : (zq a <= zq b)%Qc <-> (a <= b)%Z.
Proof. to_Q. rewrite <- Zle_Qle. reflexivity. Qed.

Lemma zq_lt (a b : Z) : (zq a < zq b)%Qc <-> (a < b)%Z.
Proof. to_Q. rewrite <- Zlt_Qlt. reflexivity. Qed.

Lemma is_zero_iff (q : Qc) : Exact.is_zero q = true <-> q = Q2Qc 0.
Proof.
  unfold Exact.is_zero. rewrite Qeq_bool_iff. split.
  - intros H. apply Qc_is_canon. exact H.
  - intros ->. reflexivity.
Qed.

Lemma is_zero_false (q : Qc) : q <> Q2Qc 0 -> Exact.is_zero q = false.
Proof.
  intros H. destruct (Exact.is_zero q) eqn:E; [|reflexivity].
  apply is_zero_iff in E. contradiction.
Qed.

Lemma exact_eqb_fin (a b : Qc) : Exact.eqb (Exact.Fin a) (Exact.Fin b) = true <-> a = b.
Proof.
  simpl. rewrite Qeq_bool_iff. split.
  - apply Qc_is_canon.
  - intros ->. reflexivity.
Qed.

Lemma exact_leb_fin (a b : Qc) :
  Exact.leb (Exact.Fin a) (Exact.Fin b) = true <-> (a <= b)%Qc.
Proof. simpl. apply Qle_bool_iff. Qed.

Lemma exact_ltb_fin (a b : Qc) :
  Exact.ltb (Exact.Fin a) (Exact.Fin b) = true <-> (a < b)%Qc.
Proof.
  simpl. rewrite negb_true_iff. split.
  - intros H. apply Qcnot_le_lt. intros Hle.
    apply Qle_bool_iff in Hle. congruence.
  - intros H. destruct (Qle_bool b a) eqn:E; [|reflexivity].
    apply Qle_bool_iff in E. exfalso. exact (Qclt_not_le _ _ H E).
Qed.

(** The comparisons of the exact arithmetic order its numbers totally. *)
Lemma exact_order_laws : order_laws exact.
Proof.
  constructor.
  - intros [q| | |] H; try reflexivity; try discriminate.
    apply exact_leb_fin. apply Qcle_refl.
  - intros [a| | |] [b| | |] [c| | |] H1 H2; try reflexivity; try discriminate.
    apply exact_leb_fin. apply exact_leb_fin in H1, H2.
    eapply Qcle_trans; eassumption.
  - intros [a| | |] [b| | |] H; try reflexivity; try discriminate.
    apply exact_leb_fin. apply exact_ltb_fin in H. apply Qclt_le_weak. exact H.
  - intros [a| | |] [b| | |] Hx Hy H; try reflexivity; try discriminate.
    change (negb (Exact.leb (Exact.Fin b) (Exact.Fin a)) = false) in H.
    apply negb_false_iff in H. exact H.
Qed.

Lemma qcsum_perm (l l' : list Qc) : Permutation l l' -> qcsum l = qcsum l'.
Proof.
  induction 1 as [|x l l' _ IH|x y l|l l' l'' _ IH1 _ IH2]; simpl.
  - reflexivity.
  - rewrite IH. reflexivity.
  - ring.
  - congruence.
Qed.

Lemma exact_fold_fin (qs : list Qc) (a : Qc) :
  fold_left Exact.add (map Exact.Fin qs) (Exact.Fin a) =
  Exact.Fin (a + qcsum qs)%Qc.
Proof.
  revert a. induction qs as [|q qs IH]; intros a; simpl.
  - f_equal. ring.
  - rewrite IH. f_equal. ring.
Qed.

(** The sum of finite numbers is their exact sum. *)
Lemma exact_np_sum_fin (qs : list Qc) :
  Exact.np_sum (map Exact.Fin qs) = Exact.Fin (qcsum qs).
Proof.
  unfold Exact.np_sum. rewrite exact_fold_fin. f_equal. ring.
Qed.

Lemma exact_fractions (m : matrix) :
  map (fun col => truediv_int exact (ones col) (Z.of_nat (length m))) (columns m) =
  map Exact.Fin (q_fractions m).
Proof. unfold q_fractions. rewrite map_map. reflexivity. Qed.

Lemma columns_length (m : matrix) : length (columns m) = n_items m.
Proof. unfold columns. rewrite length_map, length_seq. reflexivity. Qed.

Lemma exact_po (m : matrix) : po_of exact m = Exact.Fin (q_po m).
Proof. reflexivity. Qed.

Lemma exact_p_pos (m : matrix) :
  n_items m <> 0%nat -> p_pos_of exact m = Exact.Fin (q_p_pos m).
Proof.
  intros HN. unfold p_pos_of, np_mean. rewrite exact_fractions.
  cbn [np_sum exact div of_int]. rewrite exact_np_sum_fin.
  rewrite length_map. unfold q_fractions at 2. rewrite length_map, columns_length.
  unfold Exact.of_int, Exact.div. fold (zq (Z.of_nat (n_items m))).
  rewrite is_zero_false; [reflexivity|].
  change (Q2Qc 0) with (zq 0). rewrite zq_eq. lia.
Qed.

Lemma exact_p_e (m : matrix) :
  n_items m <> 0%nat -> p_e_of exact m = Exact.Fin (q_p_e m).
Proof.
  intros HN. unfold p_e_of, p_neg_of. rewrite (@exact_p_pos m HN). reflexivity.
Qed.

(** The kappa division in exact arithmetic. *)
Lemma exact_kappa (m : matrix) :
  n_items m <> 0%nat ->
  kappa_of exact m =
  if Exact.is_zero (1 - q_p_e m)%Qc
  then Exact.signed_inf (q_po m - q_p_e m)%Qc Exact.PInf Exact.NInf
  else Exact.Fin ((q_po m - q_p_e m) / (1 - q_p_e m))%Qc.
Proof.
  intros HN. unfold kappa_of. rewrite (@exact_p_e m HN), exact_po. reflexivity.
Qed.

(* ================================================================= *)
(** ** Bounds on the counts *)

Lemma count_eq_bounds (x : Z) (l : list Z) :
  (0 <= count_eq x l <= Z.of_nat (length l))%Z.
Proof.
  induction l as [|y l IH]; simpl length; cbn [count_eq]; [simpl; lia|].
  destruct (x =? y)%Z; lia.
Qed.


(** A column on which all raters agree contributes every pair. *)
Lemma agreeing_pairs_constant (v : Z) (col : list Z) :
  Forall (fun x => x = v) col ->
  agreeing_pairs col = pairs_of (Z.of_nat (length col)).
Proof.
  induction 1 as [|x col Hx Hcol IH]; [reflexivity|].
  cbn [agreeing_pairs length].
  replace (Z.of_nat (S (length col))) with (Z.of_nat (length col) + 1)%Z by lia.
  rewrite pairs_of_succ by lia. rewrite IH. f_equal.
  subst x. clear IH. induction Hcol as [|y col Hy _ IH]; [reflexivity|].
  cbn [count_eq length]. subst y. rewrite Z.eqb_refl. lia.
Qed.

Lemma zeros_count (col : list Z) :
  Forall is_binary col ->
  count_eq 0 col = (Z.of_nat (length col) - ones col)%Z.
Proof.
  unfold ones. induction 1 as [|x col Hx _ IH]; [reflexivity|].
  cbn [count_eq length]. rewrite IH.
  destruct Hx as [->| ->]; simpl (_ =? _)%Z; lia.
Qed.

(** On a column of 0s and 1s the agreeing pairs are the pairs among the
    raters marking 1 and the pairs among the raters marking 0. *)
Lemma agreeing_pairs_closed_form (col : list Z) :
  Forall is_binary col ->
  agreeing_pairs col =
  (pairs_of (ones col) + pairs_of (Z.of_nat (length col) - ones col))%Z.
Proof.
  induction 1 as [|x col Hx Hcol IH]; [reflexivity|].
  cbn [agreeing_pairs]. rewrite IH.
  pose proof (count_eq_bounds 1 col) as Hb. fold (ones col) in Hb.
  replace (Z.of_nat (length (x :: col))) with (Z.of_nat (length col) + 1)%Z
    by (simpl length; lia).
  destruct Hx as [->| ->].
  - rewrite (zeros_count Hcol).
    replace (ones (0%Z :: col)) with (ones col) by reflexivity.
    replace (Z.of_nat (length col) + 1 - ones col)%Z
      with (Z.of_nat (length col) - ones col + 1)%Z by lia.
    rewrite pairs_of_succ by lia. lia.
  - replace (ones (1%Z :: col)) with (ones col + 1)%Z
      by (unfold ones; cbn [count_eq]; rewrite Z.eqb_refl; lia).
    fold (ones col).
    rewrite pairs_of_succ by lia.
    replace (Z.of_nat (length col) + 1 - (ones col + 1))%Z
      with (Z.of_nat (length col) - ones col)%Z by lia.
    lia.
Qed.

Lemma zsum_bounds (f : list Z -> Z) (lo hi : Z) (cols : list (list Z)) :
  (forall col, In col cols -> (lo <= f col <= hi)%Z) ->
  (Z.of_nat (length cols) * lo <= zsum (map f cols) <= Z.of_nat (length cols) * hi)%Z.
Proof.
  induction cols as [|c cols IH]; intros H; [simpl; lia|].
  cbn [map zsum fold_right length].
  specialize (H c (or_introl eq_refl)) as Hc.
  assert (IH' := IH (fun col Hin => H col (or_intror Hin))).
  unfold zsum in IH'. lia.
Qed.

(** A sum that reaches one of its bounds reaches it in every term. *)
Lemma zsum_extreme (f : list Z -> Z) (lo hi : Z) (cols : list (list Z)) :
  (forall col, In col cols -> (lo <= f col <= hi)%Z) ->
  (zsum (map f cols) = Z.of_nat (length cols) * lo ->
   forall col, In col cols -> f col = lo)%Z /\
  (zsum (map f cols) = Z.of_nat (length cols) * hi ->
   forall col, In col cols -> f col = hi)%Z.
Proof.
  induction cols as [|c cols IH]; intros H; [split; intros _ ? []|].
  specialize (H c (or_introl eq_refl)) as Hc.
  assert (H' := fun col Hin => H col (or_intror Hin)).
  pose proof (@zsum_bounds f lo hi cols H') as Hb.
  destruct (IH H') as [IHlo IHhi].
  cbn [map zsum fold_right length]. unfold zsum in *.
  split; intros E col [<-|Hin]; try lia.
  - apply IHlo; [lia | assumption].
  - apply IHhi; [lia | assumption].
Qed.

Lemma columns_in_length (m : matrix) (col : list Z) :
  In col (columns m) -> length col = length m.
Proof.
  unfold columns. intros H. apply in_map_iff in H.
  destruct H as (i & <- & _). apply column_length.
Qed.


Lemma pairs_of_pos (n : Z) : (2 <= n)%Z -> (0 < pairs_of n)%Z.
Proof. intros H. unfold pairs_of. apply Z.div_str_pos. nia. Qed.

Lemma total_pairs_pos (m : matrix) :
  valid_matrix m -> (0 < total_pairs_of m)%Z.
Proof.
  intros (HR & HN & _). unfold total_pairs_of. rewrite total_pairs_eq.
  pose proof (@pairs_of_pos (Z.of_nat (length m))). nia.
Qed.

(** When every column is unanimous, every pair agrees. *)
Lemma agreements_unanimous (m : matrix) :
  (forall col, In col (columns m) -> exists v, Forall (fun x => x = v) col) ->
  agreements_of m = total_pairs_of m.
Proof.
  intros H. unfold agreements_of, total_pairs_of. rewrite total_pairs_eq.
  rewrite <- columns_length.
  assert (Hc : forall col, In col (columns m) ->
                 agreeing_pairs col = pairs_of (Z.of_nat (length m))).
  { intros col Hin. destruct (H col Hin) as [v Hv].
    rewrite (agreeing_pairs_constant Hv), (@columns_in_length m col Hin). reflexivity. }
  clear H. induction (columns m) as [|c cols IH]; [reflexivity|].
  cbn [map zsum fold_right length].
  rewrite (Hc c (or_introl eq_refl)).
  specialize (IH (fun col Hin => Hc col (or_intror Hin))).
  unfold zsum in IH. rewrite IH. lia.
Qed.


Lemma ones_none (col : list Z) :
  Forall is_binary col -> ones col = 0%Z -> Forall (fun x => x = 0%Z) col.
Proof.
  unfold ones. induction 1 as [|x col Hx _ IH]; intros E; constructor.
  - cbn [count_eq] in E. pose proof (count_eq_bounds 1 col).
    destruct Hx as [->| ->];
      [reflexivity | change (1 + count_eq 1 col = 0)%Z in E; lia].
  - apply IH. cbn [count_eq] in E. pose proof (count_eq_bounds 1 col).
    destruct (1 =? x)%Z; lia.
Qed.

Lemma ones_all (col : list Z) :
  ones col = Z.of_nat (length col) -> Forall (fun x => x = 1%Z) col.
Proof.
  unfold ones. induction col as [|x col IH]; intros E; constructor.
  - cbn [count_eq length] in E. pose proof (count_eq_bounds 1 col).
    destruct (Z.eqb_spec 1 x); [congruence | lia].
  - apply IH. cbn [count_eq length] in E. pose proof (count_eq_bounds 1 col).
    destruct (1 =? x)%Z; lia.
Qed.

(** No positive rating at all: every column holds only 0. *)
Lemma no_ones_columns (m : matrix) :
  binary m -> zsum (map ones (columns m)) = 0%Z ->
  forall col, In col (columns m) -> Forall (fun x => x = 0%Z) col.
Proof.
  intros Hb H col Hin.
  assert (Hc : forall c, In c (columns m) ->
                 (0 <= ones c <= Z.of_nat (length m))%Z).
  { intros c Hc. rewrite <- (@columns_in_length m c Hc). apply count_eq_bounds. }
  destruct (@zsum_extreme ones 0 (Z.of_nat (length m)) (columns m) Hc) as [Hlo _].
  apply ones_none; [eapply columns_binary; eassumption|].
  apply Hlo; [lia | assumption].
Qed.

(** Only positive ratings: every column holds only 1. *)
Lemma all_ones_columns (m : matrix) :
  zsum (map ones (columns m)) = (Z.of_nat (n_items m) * Z.of_nat (length m))%Z ->
  forall col, In col (columns m) -> Forall (fun x => x = 1%Z) col.
Proof.
  intros H col Hin.
  assert (Hc : forall c, In c (columns m) ->
                 (0 <= ones c <= Z.of_nat (length m))%Z).
  { intros c Hc. rewrite <- (@columns_in_length m c Hc). apply count_eq_bounds. }
  destruct (@zsum_extreme ones 0 (Z.of_nat (length m)) (columns m) Hc) as [_ Hhi].
  rewrite columns_length in Hhi.
  apply ones_all. rewrite (@columns_in_length m col Hin). apply Hhi; assumption.
Qed.

(** A rectangular matrix whose columns all hold only [v] holds only [v]. *)
Lemma constant_columns (v : Z) (m : matrix) :
  rectangular (n_items m) m ->
  (forall col, In col (columns m) -> Forall (fun x => x = v) col) ->
  constant_matrix v m.
Proof.
  intros Hr H. unfold constant_matrix. apply Forall_forall. intros row Hrow.
  apply Forall_forall. intros x Hx.
  destruct (In_nth row x 0%Z Hx) as (i & Hi & <-).
  unfold rectangular in Hr. rewrite Forall_forall in Hr.
  rewrite (Hr row Hrow) in Hi.
  assert (Hcol : In (column i m) (columns m)).
  { unfold columns. apply in_map_iff. exists i. split; [reflexivity|].
    apply in_seq. lia. }
  specialize (H _ Hcol). rewrite Forall_forall in H. apply H.
  unfold column. apply in_map_iff. exists row. split; [reflexivity | assumption].
Qed.

(* ================================================================= *)
(** ** The formula on rationals *)

Lemma zq_plus (a b : Z) : zq (a + b) = (zq a + zq b)%Qc.
Proof. apply Qc_is_canon. to_Q. rewrite inject_Z_plus. reflexivity. Qed.

Lemma zq_mult (a b : Z) : zq (a * b) = (zq a * zq b)%Qc.
Proof. apply Qc_is_canon. to_Q. rewrite inject_Z_mult. reflexivity. Qed.

Lemma zq_nonzero (a : Z) : a <> 0%Z -> zq a <> Q2Qc 0.
Proof. intros H E. change (Q2Qc 0) with (zq 0) in E. apply zq_eq in E. contradiction. Qed.


Lemma ratio_same (b : Z) : b <> 0%Z -> (zq b / zq b)%Qc = 1%Qc.
Proof. intros H. field. apply zq_nonzero, H. Qed.

Lemma ratio_zero (a b : Z) : b <> 0%Z -> (zq a / zq b)%Qc = Q2Qc 0 -> a = 0%Z.
Proof.
  intros Hb H.
  pose proof (@Qcmult_div_r (zq a) (zq b) (zq_nonzero Hb)) as E.
  rewrite H, Qcmult_0_r in E. change (Q2Qc 0) with (zq 0) in E.
  symmetry in E. apply zq_eq in E. exact E.
Qed.

Lemma ratio_one (a b : Z) : b <> 0%Z -> (zq a / zq b)%Qc = 1%Qc -> a = b.
Proof.
  intros Hb H.
  pose proof (@Qcmult_div_r (zq a) (zq b) (zq_nonzero Hb)) as E.
  rewrite H, Qcmult_1_r in E.
  symmetry in E. apply zq_eq in E. exact E.
Qed.

Lemma p_e_one (p : Qc) :
  (1 - (p * p + (1 - p) * (1 - p)))%Qc = Q2Qc 0 -> p = Q2Qc 0 \/ p = 1%Qc.
Proof.
  intros H.
  assert (E : ((1 + 1) * (p * (1 - p)))%Qc = Q2Qc 0) by (rewrite <- H; ring).
  apply Qcmult_integral in E. destruct E as [E|E]; [discriminate|].
  apply Qcmult_integral in E. destruct E as [E|E]; [left; exact E | right].
  rewrite <- (Qcplus_0_l p), <- E. ring.
Qed.



Lemma qcsum_fractions (R : Z) (cols : list (list Z)) :
  R <> 0%Z ->
  qcsum (map (fun col => (zq (ones col) / zq R)%Qc) cols) =
  (zq (zsum (map ones cols)) / zq R)%Qc.
Proof.
  intros HR. pose proof (zq_nonzero HR) as HR'.
  induction cols as [|c cols IH].
  - simpl. change (zq 0) with (Q2Qc 0). field. exact HR'.
  - cbn [map qcsum fold_right zsum]. fold (qcsum (map (fun col => (zq (ones col) / zq R)%Qc) cols)).
    rewrite IH. fold (zsum (map ones cols)). rewrite zq_plus. field. exact HR'.
Qed.

(** The positive rate is the share of positive ratings in the matrix. *)
Lemma q_p_pos_ratio (m : matrix) :
  valid_matrix m ->
  q_p_pos m =
  (zq (zsum (map ones (columns m))) /
   zq (Z.of_nat (n_items m) * Z.of_nat (length m)))%Qc.
Proof.
  intros (HR & HN & _). unfold q_p_pos, q_fractions.
  rewrite qcsum_fractions by lia. rewrite zq_mult.
  field. split; apply zq_nonzero; lia.
Qed.



Lemma q_po_unanimous (m : matrix) :
  valid_matrix m ->
  (forall col, In col (columns m) -> exists v, Forall (fun x => x = v) col) ->
  q_po m = 1%Qc.
Proof.
  intros Hv H. unfold q_po. rewrite (agreements_unanimous m H).
  apply ratio_same. pose proof (total_pairs_pos Hv). lia.
Qed.

(** Expected agreement 1 means that all ratings of the matrix are equal, and
    then the observed agreement is 1 as well. *)
Lemma degenerate_constant (m : matrix) :
  valid_matrix m -> (1 - q_p_e m)%Qc = Q2Qc 0 ->
  (constant_matrix 0 m \/ constant_matrix 1 m) /\ q_po m = 1%Qc.
Proof.
  intros Hv H. pose proof Hv as (HR & HN & Hrect & Hbin).
  apply p_e_one in H. rewrite (q_p_pos_ratio Hv) in H.
  assert (Hnz : (Z.of_nat (n_items m) * Z.of_nat (length m))%Z <> 0%Z) by nia.
  destruct H as [H|H].
  - apply (ratio_zero Hnz) in H.
    pose proof (no_ones_columns Hbin H) as Hc. split.
    + left. apply constant_columns; assumption.
    + apply (q_po_unanimous Hv). intros col Hin. exists 0%Z. auto.
  - apply (ratio_one Hnz) in H.
    pose proof (all_ones_columns m H) as Hc. split.
    + right. apply constant_columns; assumption.
    + apply (q_po_unanimous Hv). intros col Hin. exists 1%Z. auto.
Qed.

Lemma exact_one : of_int exact 1 = Exact.Fin 1%Qc.
Proof. reflexivity. Qed.


Lemma p_e_is_one (m : matrix) :
  valid_matrix m ->
  (eqb exact (p_e_of exact m) (of_int exact 1) = true <->
   (1 - q_p_e m)%Qc = Q2Qc 0).
Proof.
  intros (_ & HN & _).
  rewrite (@exact_p_e m) by lia. rewrite exact_one.
  change (eqb exact) with Exact.eqb. rewrite exact_eqb_fin. split.
  - intros ->. ring.
  - intros H. rewrite <- (Qcplus_0_l (q_p_e m)), <- H. ring.
Qed.

Lemma identical_rows_unanimous (m : matrix) :
  identical_rows m ->
  forall col, In col (columns m) -> exists v, Forall (fun x => x = v) col.
Proof.
  intros Hid col Hin. unfold columns in Hin. apply in_map_iff in Hin.
  destruct Hin as (i & <- & _).
  exists (nth i (hd [] m) 0%Z). unfold column. rewrite Forall_map.
  apply Forall_forall. intros row Hrow.
  destruct m as [|r0 m']; [destruct Hrow|].
  rewrite (Hid row r0 Hrow (or_introl eq_refl)). reflexivity.
Qed.

(* ================================================================= *)
(** ** Reordering raters and items *)

Lemma count_eq_perm (x : Z) (l l' : list Z) :
  Permutation l l' -> count_eq x l = count_eq x l'.
Proof.
  induction 1 as [|y l l' _ IH|y z l|l l' l'' _ IH1 _ IH2]; cbn [count_eq];
    lia.
Qed.

Lemma agreeing_pairs_perm (l l' : list Z) :
  Permutation l l' -> agreeing_pairs l = agreeing_pairs l'.
Proof.
  induction 1 as [|y l l' Hp IH|y z l|l l' l'' _ IH1 _ IH2].
  - reflexivity.
  - cbn [agreeing_pairs]. rewrite IH, (count_eq_perm y Hp). reflexivity.
  - cbn [agreeing_pairs count_eq]. rewrite (Z.eqb_sym z y). lia.
  - congruence.
Qed.

Lemma zsum_perm (l l' : list Z) : Permutation l l' -> zsum l = zsum l'.
Proof.
  unfold zsum.
  induction 1 as [|y l l' _ IH|y z l|l l' l'' _ IH1 _ IH2]; simpl; lia.
Qed.

Lemma column_perm (i : nat) (m m' : matrix) :
  Permutation m m' -> Permutation (column i m) (column i m').
Proof. apply Permutation_map. Qed.

Lemma valid_nonempty (m : matrix) : valid_matrix m -> m <> [].
Proof. intros (H & _) ->. simpl in H. lia. Qed.

Lemma n_items_rectangular (N : nat) (m : matrix) :
  m <> [] -> rectangular N m -> n_items m = N.
Proof.
  intros Hne H. destruct m as [|r m]; [congruence|].
  inversion H; subst. reflexivity.
Qed.

(** Reordering the raters keeps the matrix valid. *)
Lemma valid_perm (m m' : matrix) :
  valid_matrix m -> Permutation m m' ->
  valid_matrix m' /\ n_items m' = n_items m /\ length m' = length m.
Proof.
  intros (HR & HN & Hrect & Hbin) Hp.
  assert (Hlen : length m' = length m) by (symmetry; apply Permutation_length, Hp).
  assert (Hrect' : rectangular (n_items m) m')
    by (unfold rectangular in *; eapply Permutation_Forall; eassumption).
  assert (HN' : n_items m' = n_items m).
  { apply n_items_rectangular; [|assumption].
    intros ->. simpl in Hlen. lia. }
  split; [|split; assumption].
  unfold valid_matrix. rewrite HN', Hlen. repeat split; try assumption.
  unfold binary in *. eapply Permutation_Forall; eassumption.
Qed.

(** The counts do not depend on the order of the raters. *)
Lemma formula_perm_rows (A : arith) (m m' : matrix) :
  valid_matrix m -> Permutation m m' ->
  po_of A m' = po_of A m /\ kappa_of A m' = kappa_of A m.
Proof.
  intros Hv Hp. destruct (valid_perm Hv Hp) as (_ & HN & HR).
  assert (Ha : agreements_of m' = agreements_of m).
  { unfold agreements_of, columns. rewrite HN, !map_map. f_equal.
    apply map_ext. intros i. symmetry. apply agreeing_pairs_perm, column_perm, Hp. }
  assert (Ht : total_pairs_of m' = total_pairs_of m)
    by (unfold total_pairs_of; rewrite HN, HR; reflexivity).
  assert (Hpo : po_of A m' = po_of A m)
    by (unfold po_of; rewrite Ha, Ht; reflexivity).
  assert (Hp_pos : p_pos_of A m' = p_pos_of A m).
  { unfold p_pos_of, columns. rewrite HN, HR, !map_map. f_equal.
    apply map_ext. intros i. f_equal. symmetry.
    apply count_eq_perm, column_perm, Hp. }
  split; [exact Hpo|].
  unfold kappa_of, p_e_of, p_neg_of. rewrite Hpo, Hp_pos. reflexivity.
Qed.

Lemma map_nth_seq_nat (sigma : list nat) :
  map (fun i => nth i sigma 0%nat) (seq 0 (length sigma)) = sigma.
Proof.
  induction sigma as [|x sigma IH]; [reflexivity|].
  cbn [length seq map nth]. f_equal.
  rewrite <- seq_shift, map_map. exact IH.
Qed.

Lemma permute_columns_length (sigma : list nat) (m : matrix) :
  length (permute_columns sigma m) = length m.
Proof. apply length_map. Qed.

Lemma permute_columns_rectangular (sigma : list nat) (m : matrix) :
  rectangular (length sigma) (permute_columns sigma m).
Proof.
  unfold rectangular, permute_columns. rewrite Forall_map.
  apply Forall_forall. intros row _. apply length_map.
Qed.

Lemma permute_columns_n_items (sigma : list nat) (m : matrix) :
  m <> [] -> n_items (permute_columns sigma m) = length sigma.
Proof.
  intros H. apply n_items_rectangular; [|apply permute_columns_rectangular].
  destruct m; [congruence | discriminate].
Qed.

(** The columns of the rearranged matrix are the columns of the matrix, in
    the order of [sigma]. *)
Lemma permute_columns_columns (sigma : list nat) (m : matrix) :
  m <> [] ->
  columns (permute_columns sigma m) = map (fun j => column j m) sigma.
Proof.
  intros Hne. unfold columns. rewrite (permute_columns_n_items sigma Hne).
  transitivity (map (fun j => column j m)
                    (map (fun i => nth i sigma 0%nat) (seq 0 (length sigma))));
    [|rewrite map_nth_seq_nat; reflexivity].
  rewrite map_map. apply map_ext_in. intros i Hi. apply in_seq in Hi.
  unfold column, permute_columns. rewrite map_map. apply map_ext. intros row.
  rewrite (nth_indep _ 0%Z (nth 0%nat row 0%Z)) by (rewrite length_map; lia).
  rewrite (map_nth (fun j => nth j row 0%Z)). reflexivity.
Qed.

Lemma nth_binary (row : list Z) (j : nat) :
  Forall is_binary row -> is_binary (nth j row 0%Z).
Proof.
  intros H. destruct (nth_in_or_default j row 0%Z) as [Hin|Hd].
  - rewrite Forall_forall in H. apply H, Hin.
  - rewrite Hd. left; reflexivity.
Qed.

(** Reordering the items keeps the matrix valid. *)
Lemma valid_permute_columns (sigma : list nat) (m : matrix) :
  valid_matrix m -> Permutation sigma (seq 0 (n_items m)) ->
  valid_matrix (permute_columns sigma m) /\
  n_items (permute_columns sigma m) = n_items m /\
  Permutation (columns (permute_columns sigma m)) (columns m).
Proof.
  intros Hv Hp. pose proof (valid_nonempty Hv) as Hne.
  pose proof Hv as (HR & HN & Hrect & Hbin).
  assert (Hlen : length sigma = n_items m)
    by (rewrite (Permutation_length Hp), length_seq; reflexivity).
  assert (HN' : n_items (permute_columns sigma m) = n_items m)
    by (rewrite permute_columns_n_items; assumption).
  split; [|split; [exact HN'|]].
  - unfold valid_matrix. rewrite HN', permute_columns_length.
    repeat split; try assumption.
    + rewrite <- Hlen. apply permute_columns_rectangular.
    + unfold binary, permute_columns in *. rewrite Forall_map.
      eapply Forall_impl; [|exact Hbin]. intros row Hrow.
      rewrite Forall_map. apply Forall_forall. intros j _.
      apply nth_binary, Hrow.
  - rewrite (permute_columns_columns sigma Hne). unfold columns.
    apply Permutation_map, Hp.
Qed.

(** The observed agreement does not depend on the order of the items, in
    any arithmetic. *)
Lemma po_permute_columns (A : arith) (sigma : list nat) (m : matrix) :
  valid_matrix m -> Permutation sigma (seq 0 (n_items m)) ->
  po_of A (permute_columns sigma m) = po_of A m.
Proof.
  intros Hv Hp. destruct (valid_permute_columns Hv Hp) as (_ & HN & Hc).
  unfold po_of, agreements_of, total_pairs_of.
  rewrite HN, permute_columns_length.
  rewrite (zsum_perm (Permutation_map agreeing_pairs Hc)). reflexivity.
Qed.

(** Without rounding, neither does kappa. *)
Lemma kappa_permute_columns_exact (sigma : list nat) (m : matrix) :
  valid_matrix m -> Permutation sigma (seq 0 (n_items m)) ->
  kappa_of exact (permute_columns sigma m) = kappa_of exact m.
Proof.
  intros Hv Hp. destruct (valid_permute_columns Hv Hp) as (Hv' & HN & Hc).
  pose proof Hv as (_ & HN2 & _).
  assert (Hp_pos : p_pos_of exact (permute_columns sigma m) = p_pos_of exact m).
  { rewrite !exact_p_pos by lia. f_equal. unfold q_p_pos. rewrite HN. f_equal.
    apply qcsum_perm. unfold q_fractions. rewrite permute_columns_length.
    apply Permutation_map, Hc. }
  unfold kappa_of, p_e_of, p_neg_of.
  rewrite Hp_pos, (po_permute_columns exact Hv Hp). reflexivity.
Qed.

(* ================================================================= *)
(** ** Concrete matrices *)

Lemma valid_by_validation (m : matrix) : validate m = Ok tt -> valid_matrix m.
Proof. apply validate_ok_iff. Qed.

Lemma example_valid : valid_matrix example_ratings.
Proof. apply valid_by_validation. reflexivity. Qed.

Lemma two_raters_valid : valid_matrix two_raters.
Proof. apply valid_by_validation. reflexivity. Qed.


Lemma all_zero_valid : valid_matrix all_zero.
Proof. apply valid_by_validation. reflexivity. Qed.

Lemma dissenter_first_valid : valid_matrix dissenter_first.
Proof. apply valid_by_validation. reflexivity. Qed.

Lemma three_by_three_valid : valid_matrix three_by_three.
Proof. apply valid_by_validation. reflexivity. Qed.

(* ================================================================= *)
(** ** The claims *)

(** C1.  For every valid rating matrix (R >= 2 raters, N >= 2 items, rows of
    equal length, values 0 or 1), [fleiss_kappa_binary] returns
    [(kappa, po)] where [po = agreements / total_pairs] with
    [total_pairs = N * R * (R - 1) / 2] and [agreements] the number, summed
    over the items, of unordered pairs of distinct raters giving the same
    value; [p_pos] is the mean over the items of the fraction of raters
    marking 1, [p_e = p_pos^2 + p_neg^2] with [p_neg = 1 - p_pos], and
    [kappa = (po - p_e) / (1 - p_e)].  This holds in every arithmetic. *)
Theorem compute_formula (A : arith) (m : matrix) :
  valid_matrix m ->
  let R := Z.of_nat (length m) in
  let N := Z.of_nat (n_items m) in
  let total_pairs := (N * R * (R - 1) / 2)%Z in
  let agreements := zsum (map agreeing_pairs (columns m)) in
  let po := truediv_int A agreements total_pairs in
  let p_pos :=
    np_mean A (map (fun col => truediv_int A (ones col) R) (columns m)) in
  let p_neg := sub A (of_int A 1) p_pos in
  let p_e := add A (mul A p_pos p_pos) (mul A p_neg p_neg) in
  let kappa := div A (sub A po p_e) (sub A (of_int A 1) p_e) in
  fleiss_kappa_binary A m = Ok (kappa, po).
Proof.
  intros Hv. cbv zeta. exact (fleiss_kappa_binary_valid A Hv).
Qed.

Lemma compute_formula_witness :
  valid_matrix example_ratings /\
  fleiss_kappa_binary binary64 example_ratings =
  Ok (0.44444444444444442%float, 0.73333333333333328%float).
Proof.
  split; [exact example_valid|].
  rewrite (compute_formula binary64 example_valid).
  vm_compute. reflexivity.
Defined.

Lemma compute_raises (A : arith) (m : matrix) (e : exn) :
  validate m = Raise e -> fleiss_kappa_binary A m = Raise e.
Proof. intros H. unfold fleiss_kappa_binary. rewrite H. reflexivity. Qed.

(** The validation, check by check. *)
Lemma validate_cases (m : matrix) :
  validate m =
  if (length m =? 0)%nat then Raise (ValueError msg_empty)
  else if (length m <? 2)%nat then Raise (ValueError msg_raters)
  else if negb (distinct_lengths m =? 1)%nat then Raise (ValueError msg_lengths)
  else if existsb not_binary (concat m) then Raise (ValueError msg_binary)
  else if (n_items m <? 2)%nat then Raise (ValueError msg_items)
  else Ok tt.
Proof. destruct m; reflexivity. Qed.

(** C2.  [fleiss_kappa_binary] validates its input with exactly five checks
    in this order: (1) the matrix is non-empty, (2) it has at least 2 rows,
    (3) all rows have equal length, (4) every value is 0 or 1, (5) the rows
    have at least 2 elements; it fails with the message of the first
    violated check only, and passes the validation when none is violated.
    In particular the empty matrix fails with the message of check (1).
    The five messages are pairwise distinct. *)
Theorem validation_order (A : arith) (m : matrix) :
  (m = [] -> fleiss_kappa_binary A m = Raise (ValueError msg_empty)) /\
  (m <> [] -> (length m < 2)%nat ->
   fleiss_kappa_binary A m = Raise (ValueError msg_raters)) /\
  ((2 <= length m)%nat -> ~ rectangular (n_items m) m ->
   fleiss_kappa_binary A m = Raise (ValueError msg_lengths)) /\
  ((2 <= length m)%nat -> rectangular (n_items m) m -> ~ binary m ->
   fleiss_kappa_binary A m = Raise (ValueError msg_binary)) /\
  ((2 <= length m)%nat -> rectangular (n_items m) m -> binary m ->
   (n_items m < 2)%nat ->
   fleiss_kappa_binary A m = Raise (ValueError msg_items)) /\
  ((2 <= length m)%nat -> rectangular (n_items m) m -> binary m ->
   (2 <= n_items m)%nat ->
   validate m = Ok tt /\ exists r, fleiss_kappa_binary A m = Ok r) /\
  fleiss_kappa_binary A [] = Raise (ValueError msg_empty) /\
  NoDup [msg_empty; msg_raters; msg_lengths; msg_binary; msg_items].
Proof.
  assert (Hrect : m <> [] ->
            (distinct_lengths m =? 1)%nat = true <-> rectangular (n_items m) m).
  { intros Hne. rewrite Nat.eqb_eq. apply distinct_lengths_one, Hne. }
  assert (Hne2 : (2 <= length m)%nat -> m <> [])
    by (intros H ->; simpl in H; lia).
  repeat split.
  - intros ->. reflexivity.
  - intros Hne Hlt. apply compute_raises. rewrite validate_cases.
    destruct m as [|r0 [|r1 m']]; [congruence | reflexivity | simpl in Hlt; lia].
  - intros H2 Hnr. apply compute_raises. rewrite validate_cases.
    destruct (Nat.eqb_spec (length m) 0); [lia|].
    destruct (Nat.ltb_spec (length m) 2); [lia|].
    destruct (distinct_lengths m =? 1)%nat eqn:E; [|reflexivity].
    exfalso. apply Hnr, Hrect; auto.
  - intros H2 Hr Hnb. apply compute_raises. rewrite validate_cases.
    destruct (Nat.eqb_spec (length m) 0); [lia|].
    destruct (Nat.ltb_spec (length m) 2); [lia|].
    rewrite (proj2 (Hrect (Hne2 H2)) Hr). cbn [negb].
    destruct (existsb not_binary (concat m)) eqn:E; [reflexivity|].
    exfalso. apply Hnb, all_binary, E.
  - intros H2 Hr Hb Hlt. apply compute_raises. rewrite validate_cases.
    destruct (Nat.eqb_spec (length m) 0); [lia|].
    destruct (Nat.ltb_spec (length m) 2); [lia|].
    rewrite (proj2 (Hrect (Hne2 H2)) Hr). cbn [negb].
    rewrite (proj2 (all_binary m) Hb).
    destruct (Nat.ltb_spec (n_items m) 2); [reflexivity | lia].
  - apply validate_ok_iff. repeat split; assumption.
  - eexists. apply fleiss_kappa_binary_valid. repeat split; assumption.
  - repeat constructor; simpl; intuition discriminate.
Qed.

(** The five outcomes of the validation on concrete matrices. *)
Lemma validation_order_witness :
  fleiss_kappa_binary binary64 [] = Raise (ValueError msg_empty) /\
  fleiss_kappa_binary binary64 [[1; 2; 3]]%Z = Raise (ValueError msg_raters) /\
  fleiss_kappa_binary binary64 [[1]; [2; 3]]%Z = Raise (ValueError msg_lengths) /\
  fleiss_kappa_binary binary64 [[2]; [1]]%Z = Raise (ValueError msg_binary) /\
  fleiss_kappa_binary binary64 [[0]; [1]]%Z = Raise (ValueError msg_items).
Proof.
  pose proof (validation_order binary64 []) as (H1 & _).
  pose proof (validation_order binary64 [[1; 2; 3]]%Z) as (_ & H2 & _).
  pose proof (validation_order binary64 [[1]; [2; 3]]%Z) as (_ & _ & H3 & _).
  pose proof (validation_order binary64 [[2]; [1]]%Z) as (_ & _ & _ & H4 & _).
  pose proof (validation_order binary64 [[0]; [1]]%Z) as (_ & _ & _ & _ & H5 & _).
  split; [|split; [|split; [|split]]].
  - apply H1. reflexivity.
  - apply H2; [discriminate | simpl; lia].
  - apply H3; [simpl; lia|]. intros H. inversion H as [|? ? _ H']; subst.
    inversion H' as [|? ? E _]; subst. discriminate E.
  - apply H4; [simpl; lia | apply distinct_lengths_one; [discriminate | reflexivity] |].
    intros H. apply all_binary in H. discriminate H.
  - apply H5; [simpl; lia | apply distinct_lengths_one; [discriminate | reflexivity]
              | apply all_binary; reflexivity | unfold n_items; simpl; lia].
Defined.

(** C8.  For every valid matrix with exactly 2 raters,
    [reviewer_contribution_analysis] fails with the error of its first
    reduced, one-rater computation, "There should be at least two raters.",
    and returns no result. *)
Theorem analysis_two_raters (A : arith) (m : matrix) :
  valid_matrix m -> length m = 2%nat ->
  fleiss_kappa_binary A (remove_row 0 m) = Raise (ValueError msg_raters) /\
  reviewer_contribution_analysis A m = Raise (ValueError msg_raters).
Proof.
  intros _ H2.
  destruct m as [|r0 [|r1 [|r2 m']]]; try discriminate H2.
  assert (E : fleiss_kappa_binary A (remove_row 0 [r0; r1]) =
              Raise (ValueError msg_raters)) by reflexivity.
  split; [exact E|].
  rewrite analysis_unfold. cbn [length seq map_result].
  unfold kappa_without at 1. rewrite E. reflexivity.
Qed.

Lemma analysis_two_raters_witness :
  valid_matrix two_raters /\ length two_raters = 2%nat /\
  fleiss_kappa_binary binary64 (remove_row 0 two_raters) =
    Raise (ValueError msg_raters) /\
  reviewer_contribution_analysis binary64 two_raters =
    Raise (ValueError msg_raters).
Proof.
  split; [exact two_raters_valid|]. split; [reflexivity|].
  exact (analysis_two_raters binary64 two_raters_valid eq_refl).
Defined.

(** C9.  [reviewer_contribution_analysis] does no validation of its own: on
    the empty matrix its loop runs over the empty range, and what fails is
    the maximum of the empty list of scores, with a message that is none of
    the five of the validation, whereas [fleiss_kappa_binary] rejects the
    empty matrix with the first of them. *)
Theorem analysis_empty (A : arith) :
  range 0 (length (@nil (list Z))) = [] /\
  reviewer_contribution_analysis A [] = Raise (ValueError msg_max_empty) /\
  py_max A [] = Raise (ValueError msg_max_empty) /\
  ~ In msg_max_empty [msg_empty; msg_raters; msg_lengths; msg_binary; msg_items] /\
  fleiss_kappa_binary A [] = Raise (ValueError msg_empty).
Proof.
  repeat split. simpl. intuition discriminate.
Qed.

(** C10.  Whenever [reviewer_contribution_analysis] succeeds on a matrix with
    R rows, the list of per-exclusion kappas has length exactly R and the
    returned index is below R. *)
Theorem analysis_shape (A : arith) (m : matrix) idx best ks :
  reviewer_contribution_analysis A m = Ok (idx, best, ks) ->
  length ks = length m /\ (0 <= idx < length m)%nat.
Proof.
  rewrite analysis_unfold. intros H.
  destruct (map_result (kappa_without A m) (seq 0 (length m))) as [ks'|e] eqn:E;
    [|discriminate H].
  cbn [bind] in H.
  destruct (py_max A ks') as [h|e]; [|discriminate H]. cbn [bind] in H.
  destruct (py_index A ks' h) as [i|e] eqn:Ei; [|discriminate H]. cbn [bind] in H.
  inversion H; subst.
  apply map_result_length in E. rewrite length_seq in E.
  apply index_from_bound in Ei. lia.
Qed.

Lemma analysis_shape_witness :
  reviewer_contribution_analysis binary64 example_ratings =
    Ok (2%nat, 1%float,
        [0.1666666666666666%float; 0.1666666666666666%float; 1%float]) /\
  length [0.1666666666666666%float; 0.1666666666666666%float; 1%float] =
    length example_ratings /\
  (0 <= 2 < length example_ratings)%nat.
Proof.
  assert (E : reviewer_contribution_analysis binary64 example_ratings =
    Ok (2%nat, 1%float,
        [0.1666666666666666%float; 0.1666666666666666%float; 1%float]))
    by (vm_compute; reflexivity).
  split; [exact E|].
  exact (analysis_shape binary64 example_ratings E).
Defined.

(* ================================================================= *)
(** ** The order of binary64 *)

(** The comparison of two numbers, read on their specifications. *)
Lemma b64_ltb (x y : float) :
  PrimFloat.ltb x y = SFltb (Prim2SF x) (Prim2SF y).
Proof. apply ltb_spec. Qed.

Lemma b64_leb (x y : float) :
  PrimFloat.leb x y = SFleb (Prim2SF x) (Prim2SF y).
Proof. apply leb_spec. Qed.

Lemma b64_eqb (x y : float) :
  PrimFloat.eqb x y = SFeqb (Prim2SF x) (Prim2SF y).
Proof. apply FloatAxioms.eqb_spec. Qed.

Ltac compare_cases :=
  repeat match goal with
  | H : context [(?a ?= ?b)%Z] |- _ => destruct (Z.compare_spec a b)
  | |- context [(?a ?= ?b)%Z] => destruct (Z.compare_spec a b)
  | H : context [(?a ?= ?b)%positive] |- _ => destruct (Pos.compare_spec a b)
  | |- context [(?a ?= ?b)%positive] => destruct (Pos.compare_spec a b)
  end;
  simpl in *; try discriminate; try reflexivity; try lia.

Lemma SFleb_refl (x : spec_float) : SFeqb x x = true -> SFleb x x = true.
Proof.
  unfold SFeqb, SFleb. destruct (SFcompare x x) as [[| |]|]; auto.
Qed.

Lemma SFleb_trans (x y z : spec_float) :
  SFleb x y = true -> SFleb y z = true -> SFleb x z = true.
Proof.
  unfold SFleb, SFcompare.
  change PosDef.Pos.compare_cont with Pos.compare_cont.
  destruct x as [sx|sx| |sx mx ex], y as [sy|sy| |sy my ey],
           z as [sz|sz| |sz mz ez];
    try discriminate; try reflexivity;
    try destruct sx; try destruct sy; try destruct sz;
    try discriminate; try reflexivity;
    fold (Pos.compare mx my); fold (Pos.compare my mz); fold (Pos.compare mx mz);
    intros H1 H2; compare_cases.
Qed.

Lemma SFltb_leb (x y : spec_float) : SFltb x y = true -> SFleb x y = true.
Proof.
  unfold SFltb, SFleb. destruct (SFcompare x y) as [[| |]|]; auto.
Qed.

Lemma SFnot_ltb_leb (x y : spec_float) :
  SFeqb x x = true -> SFeqb y y = true ->
  SFltb x y = false -> SFleb y x = true.
Proof.
  unfold SFeqb, SFltb, SFleb, SFcompare.
  change PosDef.Pos.compare_cont with Pos.compare_cont.
  destruct x as [sx|sx| |sx mx ex], y as [sy|sy| |sy my ey];
    try discriminate; try reflexivity;
    try destruct sx; try destruct sy;
    try discriminate; try reflexivity;
    fold (Pos.compare mx my); fold (Pos.compare my mx);
    fold (Pos.compare mx mx); fold (Pos.compare my my);
    intros _ _ H; compare_cases.
Qed.

(** The comparisons of binary64 order its numbers totally. *)
Lemma binary64_order_laws : order_laws binary64.
Proof.
  constructor; unfold is_num; cbn [leb ltb eqb binary64]; intros *;
    rewrite ?b64_leb, ?b64_ltb, ?b64_eqb.
  - apply SFleb_refl.
  - apply SFleb_trans.
  - apply SFltb_leb.
  - apply SFnot_ltb_leb.
Qed.

Lemma nth_map_seq (X : Type) (f : nat -> X) (n i : nat) (d : X) :
  (i < n)%nat -> nth i (map f (seq 0 n)) d = f i.
Proof.
  intros H. rewrite (nth_indep _ d (f 0%nat)) by (rewrite length_map, length_seq; exact H).
  rewrite (map_nth f). rewrite seq_nth by exact H. reflexivity.
Qed.

(** C3, as the code has it.  For every valid matrix with R >= 3 raters,
    [reviewer_contribution_analysis] returns
    [(excluded_index, best_kappa, per_exclusion_kappas)] where
    [per_exclusion_kappas[i]] is the kappa of the matrix without its row
    [i] (the other rows in their order).  Provided none of these kappas is
    NaN, [best_kappa] is the maximum of the sequence and [excluded_index] is
    the lowest index achieving it.  This holds in every arithmetic whose
    comparisons order its numbers totally, binary64 included. *)
Theorem analysis_leave_one_out (A : arith) (m : matrix) :
  order_laws A -> valid_matrix m -> (3 <= length m)%nat ->
  exists idx best ks,
    reviewer_contribution_analysis A m = Ok (idx, best, ks) /\
    length ks = length m /\
    (forall i, (i < length m)%nat ->
       exists po,
         fleiss_kappa_binary A (remove_row i m) = Ok (nth i ks best, po)) /\
    (idx < length m)%nat /\
    ((forall x, In x ks -> is_num A x) ->
     In best ks /\
     (forall x, In x ks -> leb A x best = true) /\
     eqb A (nth idx ks best) best = true /\
     (forall j, (j < idx)%nat -> eqb A (nth j ks best) best = false)).
Proof.
  intros L Hv H3.
  set (ks := map (fun i => kappa_of A (remove_row i m)) (seq 0 (length m))).
  assert (Hlen : length ks = length m)
    by (unfold ks; rewrite length_map, length_seq; reflexivity).
  destruct (py_max A ks) as [h|e] eqn:Emax.
  2:{ destruct ks; [simpl in Hlen; lia | discriminate Emax]. }
  destruct (py_max_position A ks (snd h) Emax) as [Hpos Hnth].
  destruct (@index_from_found A ks 0 h) as [idx Eidx]; [lia|].
  pose proof (index_from_bound _ _ _ _ Eidx) as Hidx.
  destruct (index_from_first _ _ _ _ (snd h) Eidx) as [Hat Hbefore].
  exists idx, (snd h), ks. split; [|split; [exact Hlen | split; [|split]]].
  - rewrite analysis_unfold, (scores_valid A Hv H3). fold ks. cbn [bind].
    rewrite Emax. cbn [bind]. unfold py_index. rewrite Eidx. reflexivity.
  - intros i Hi. exists (po_of A (remove_row i m)).
    unfold ks. rewrite nth_map_seq by exact Hi.
    destruct (@remove_row_valid m i Hv H3 Hi) as [Hv' _].
    apply fleiss_kappa_binary_valid, Hv'.
  - lia.
  - intros Hnum.
    assert (Hin : In (snd h) ks) by (rewrite <- Hnth; apply nth_In; exact Hpos).
    split; [exact Hin|]. split; [|split].
    + apply (@py_max_greatest A ks h L Hnum Emax).
    + rewrite Nat.sub_0_r in Hat. destruct Hat as [->|Hat]; [|exact Hat].
      rewrite Hnth. apply Hnum, Hin.
    + intros j Hj. destruct (Hbefore j) as [_ Hb]; [lia|].
      rewrite Nat.sub_0_r in Hb. exact Hb.
Qed.

Lemma analysis_leave_one_out_witness :
  order_laws binary64 /\ valid_matrix example_ratings /\
  (3 <= length example_ratings)%nat /\
  exists idx best ks,
    reviewer_contribution_analysis binary64 example_ratings = Ok (idx, best, ks) /\
    length ks = length example_ratings /\
    (forall i, (i < length example_ratings)%nat ->
       exists po,
         fleiss_kappa_binary binary64 (remove_row i example_ratings) =
         Ok (nth i ks best, po)) /\
    (idx < length example_ratings)%nat /\
    ((forall x, In x ks -> is_num binary64 x) ->
     In best ks /\
     (forall x, In x ks -> leb binary64 x best = true) /\
     eqb binary64 (nth idx ks best) best = true /\
     (forall j, (j < idx)%nat -> eqb binary64 (nth j ks best) best = false)).
Proof.
  split; [exact binary64_order_laws|]. split; [exact example_valid|].
  split; [simpl; lia|].
  apply (analysis_leave_one_out binary64_order_laws example_valid).
  simpl; lia.
Defined.

(** C3 fails as stated: removing the first rater of [dissenter_first] leaves
    only equal ratings, the first score is NaN, [max] keeps it, and the
    returned "maximum" is not above the other scores nor equal to any. *)
Lemma analysis_nan_not_maximum :
  valid_matrix dissenter_first /\ (3 <= length dissenter_first)%nat /\
  reviewer_contribution_analysis binary64 dissenter_first =
    Ok (0%nat, nan,
        [nan; (-0.33333333333333331)%float; (-0.33333333333333331)%float]) /\
  ~ (forall x,
       In x [nan; (-0.33333333333333331)%float; (-0.33333333333333331)%float] ->
       leb binary64 x nan = true) /\
  eqb binary64
      (nth 0 [nan; (-0.33333333333333331)%float; (-0.33333333333333331)%float] nan)
      nan = false.
Proof.
  split; [exact dissenter_first_valid|]. split; [simpl; lia|].
  split; [vm_compute; reflexivity|]. split; [|vm_compute; reflexivity].
  intros H. specialize (H nan (or_introl eq_refl)). vm_compute in H. discriminate H.
Qed.

(* ================================================================= *)
(** ** Division by zero in binary64 *)

(** A float over zero is NaN or an infinity. *)
Lemma b64_div_zero (x : float) :
  PrimFloat.div x 0%float = nan \/
  PrimFloat.div x 0%float = infinity \/
  PrimFloat.div x 0%float = neg_infinity.
Proof.
  assert (E : Prim2SF (PrimFloat.div x 0%float) =
              SFdiv prec emax (Prim2SF x) (S754_zero false))
    by (rewrite div_spec; reflexivity).
  rewrite <- (SF2Prim_Prim2SF (PrimFloat.div x 0%float)), E.
  destruct (Prim2SF x) as [s|s| |s m e]; simpl.
  - left. reflexivity.
  - destruct s; [right; right | right; left]; reflexivity.
  - left; reflexivity.
  - destruct s; [right; right | right; left]; reflexivity.
Qed.

(** Only a positive finite number compares equal to itself. *)
Lemma SFeqb_finite_eq (x : spec_float) (m : positive) (e : Z) :
  SFeqb x (S754_finite false m e) = true -> x = S754_finite false m e.
Proof.
  unfold SFeqb, SFcompare.
  change PosDef.Pos.compare_cont with Pos.compare_cont.
  destruct x as [s|s| |s m' e']; try discriminate.
  - destruct s; discriminate.
  - destruct s; try discriminate.
    fold (Pos.compare m' m).
    destruct (Z.compare_spec e' e); try discriminate. subst e'.
    destruct (Pos.compare_spec m' m); try discriminate.
    subst. reflexivity.
Qed.

(** Only 1 compares equal to 1. *)
Lemma b64_eqb_one (x : float) : PrimFloat.eqb x 1%float = true -> x = 1%float.
Proof.
  intros H. rewrite b64_eqb in H. apply Prim2SF_inj.
  apply SFeqb_finite_eq. exact H.
Qed.

(** In binary64, expected agreement 1 makes the kappa division a division
    by zero, which returns NaN or an infinity. *)
Lemma degenerate_binary64 (m : matrix) :
  valid_matrix m ->
  eqb binary64 (p_e_of binary64 m) (of_int binary64 1) = true ->
  exists kappa,
    fleiss_kappa_binary binary64 m = Ok (kappa, po_of binary64 m) /\
    (kappa = nan \/ kappa = infinity \/ kappa = neg_infinity).
Proof.
  intros Hv H. exists (kappa_of binary64 m).
  split; [apply fleiss_kappa_binary_valid, Hv|].
  apply b64_eqb_one in H. unfold kappa_of. rewrite H.
  change (sub binary64 (of_int binary64 1) (of_int binary64 1)) with 0%float.
  apply b64_div_zero.
Qed.

(** Without rounding, expected agreement 1 means equal ratings throughout,
    and the kappa division is 0 / 0. *)
Lemma degenerate_exact (m : matrix) :
  valid_matrix m ->
  eqb exact (p_e_of exact m) (of_int exact 1) = true ->
  (constant_matrix 0 m \/ constant_matrix 1 m) /\
  fleiss_kappa_binary exact m = Ok (Exact.XNaN, of_int exact 1).
Proof.
  intros Hv H. apply (p_e_is_one Hv) in H.
  destruct (degenerate_constant Hv H) as [Hc Hpo]. split; [exact Hc|].
  rewrite (fleiss_kappa_binary_valid exact Hv).
  pose proof Hv as (_ & HN & _).
  rewrite exact_kappa by lia. rewrite exact_po, Hpo, H.
  reflexivity.
Qed.

(** C4, as the code has it.  On a valid matrix whose expected agreement
    [p_e] equals 1, [fleiss_kappa_binary] does return a result: the kappa
    division is a NumPy [float64] division, which does not raise on a zero
    divisor.  In binary64 the returned kappa is NaN or an infinity.  Without
    rounding [p_e = 1] means that all ratings of the matrix are equal, and
    the result is (NaN, 1). *)
Theorem degenerate_kappa (m : matrix) :
  valid_matrix m ->
  (eqb binary64 (p_e_of binary64 m) (of_int binary64 1) = true ->
   exists kappa,
     fleiss_kappa_binary binary64 m = Ok (kappa, po_of binary64 m) /\
     (kappa = nan \/ kappa = infinity \/ kappa = neg_infinity)) /\
  (eqb exact (p_e_of exact m) (of_int exact 1) = true ->
   (constant_matrix 0 m \/ constant_matrix 1 m) /\
   fleiss_kappa_binary exact m = Ok (Exact.XNaN, of_int exact 1)).
Proof.
  intros Hv. split.
  - apply degenerate_binary64, Hv.
  - apply degenerate_exact, Hv.
Qed.

Lemma degenerate_kappa_witness :
  valid_matrix all_zero /\
  eqb binary64 (p_e_of binary64 all_zero) (of_int binary64 1) = true /\
  eqb exact (p_e_of exact all_zero) (of_int exact 1) = true /\
  (exists kappa,
     fleiss_kappa_binary binary64 all_zero = Ok (kappa, po_of binary64 all_zero) /\
     (kappa = nan \/ kappa = infinity \/ kappa = neg_infinity)) /\
  (constant_matrix 0 all_zero \/ constant_matrix 1 all_zero) /\
  fleiss_kappa_binary exact all_zero = Ok (Exact.XNaN, of_int exact 1).
Proof.
  destruct (degenerate_kappa all_zero_valid) as [Hb He].
  split; [exact all_zero_valid|].
  split; [vm_compute; reflexivity|]. split; [vm_compute; reflexivity|].
  split; [apply Hb; vm_compute; reflexivity|].
  apply He. vm_compute. reflexivity.
Defined.

(** C4 fails as stated: on [all_zero] the expected agreement is 1 and
    [fleiss_kappa_binary] returns, with a NaN kappa. *)
Lemma degenerate_returns :
  valid_matrix all_zero /\
  eqb binary64 (p_e_of binary64 all_zero) (of_int binary64 1) = true /\
  fleiss_kappa_binary binary64 all_zero = Ok (nan, 1%float).
Proof.
  split; [exact all_zero_valid|].
  split; vm_compute; reflexivity.
Qed.






(* ----------------------------------------------------------------- *)
(** *** Perfect agreement in binary64 *)

Lemma div_eucl_shift (m : positive) :
  Z.div_eucl (Z.shiftl (Zpos m) 53) (Zpos m) = (9007199254740992, 0)%Z.
Proof.
  rewrite Z.shiftl_mul_pow2 by lia.
  change (2 ^ 53)%Z with 9007199254740992%Z.
  pose proof (Z.div_eucl_eq (Zpos m * 9007199254740992) (Zpos m)) as E.
  pose proof (Z.mod_pos_bound (Zpos m * 9007199254740992) (Zpos m)) as B.
  unfold Z.modulo in B.
  destruct (Z.div_eucl (Zpos m * 9007199254740992) (Zpos m)) as [q r].
  specialize (E ltac:(lia)). specialize (B ltac:(lia)).
  assert (q = 9007199254740992%Z) by nia.
  subst q. f_equal. lia.
Qed.

(** The correctly rounded quotient of a number by itself is 1. *)
Lemma SFdiv_same (s : bool) (m : positive) (e : Z) :
  SFdiv prec emax (S754_finite s m e) (S754_finite s m e) =
  S754_finite false 4503599627370496 (-52).
Proof.
  unfold SFdiv, SFdiv_core_binary.
  replace (Zdigits2 (Zpos m) + e - (Zdigits2 (Zpos m) + e))%Z with 0%Z by lia.
  replace (e - e)%Z with 0%Z by lia.
  change (Z.min (fexp prec emax 0) 0) with (-53)%Z.
  change (0 - -53)%Z with 53%Z.
  cbv iota. rewrite div_eucl_shift.
  assert (L : new_location (Zpos m) 0 = loc_Exact).
  { unfold new_location. destruct (Z.even (Zpos m)); reflexivity. }
  rewrite L. destruct s; vm_compute; reflexivity.
Qed.

Lemma b64_truediv_same (t : Z) : t <> 0%Z -> B64.truediv_int t t = 1%float.
Proof.
  intros H. unfold B64.truediv_int.
  destruct t as [|p|p]; [congruence| |]; cbn [B64.Z2SF];
    rewrite SFdiv_same; vm_compute; reflexivity.
Qed.

(** A positive finite float over itself is 1. *)
Lemma b64_div_same (x : float) :
  PrimFloat.ltb 0%float x = true -> PrimFloat.ltb x infinity = true ->
  PrimFloat.div x x = 1%float.
Proof.
  rewrite !b64_ltb. intros H0 Hinf. apply Prim2SF_inj. rewrite div_spec.
  change (Prim2SF 0%float) with (S754_zero false) in H0.
  change (Prim2SF infinity) with (S754_infinity false) in Hinf.
  destruct (Prim2SF x) as [s|s| |s m e].
  - destruct s; discriminate H0.
  - destruct s; [discriminate H0 | discriminate Hinf].
  - discriminate H0.
  - unfold SF64div. rewrite SFdiv_same. vm_compute. reflexivity.
Qed.

(** In binary64 too, identical rows give an observed agreement of exactly 1,
    and a kappa of exactly 1 whenever the divisor [1 - p_e] is a positive
    finite number. *)
Lemma perfect_agreement_binary64 (m : matrix) :
  valid_matrix m -> identical_rows m ->
  fleiss_kappa_binary binary64 m = Ok (kappa_of binary64 m, 1%float) /\
  (let d := sub binary64 (of_int binary64 1) (p_e_of binary64 m) in
   ltb binary64 0%float d = true -> ltb binary64 d infinity = true ->
   kappa_of binary64 m = 1%float).
Proof.
  intros Hv Hid.
  assert (Hpo : po_of binary64 m = 1%float).
  { unfold po_of. rewrite (agreements_unanimous m (identical_rows_unanimous Hid)).
    apply b64_truediv_same. pose proof (total_pairs_pos Hv). lia. }
  split.
  - rewrite (fleiss_kappa_binary_valid binary64 Hv), Hpo. reflexivity.
  - intros d H0 Hinf. unfold kappa_of. rewrite Hpo.
    change 1%float with (of_int binary64 1). fold d.
    apply b64_div_same; assumption.
Qed.

(** C7, as the code has it.  For every valid matrix, reordering the rows
    leaves the result [(kappa, po)] unchanged, in every arithmetic;
    reordering the items, the same way in all rows, leaves [po] unchanged in
    every arithmetic and leaves kappa unchanged when nothing is rounded. *)
Theorem reordering_invariance (A : arith) (m : matrix) :
  valid_matrix m ->
  (forall m', Permutation m m' ->
     fleiss_kappa_binary A m' = fleiss_kappa_binary A m) /\
  (forall sigma, Permutation sigma (seq 0 (n_items m)) ->
     (exists kappa kappa' po,
        fleiss_kappa_binary A m = Ok (kappa, po) /\
        fleiss_kappa_binary A (permute_columns sigma m) = Ok (kappa', po)) /\
     fleiss_kappa_binary exact (permute_columns sigma m) =
     fleiss_kappa_binary exact m).
Proof.
  intros Hv. split.
  - intros m' Hp. destruct (valid_perm Hv Hp) as (Hv' & _).
    destruct (formula_perm_rows A Hv Hp) as [Hpo Hk].
    rewrite (fleiss_kappa_binary_valid A Hv), (fleiss_kappa_binary_valid A Hv').
    rewrite Hpo, Hk. reflexivity.
  - intros sigma Hp. destruct (valid_permute_columns Hv Hp) as (Hv' & _).
    split.
    + exists (kappa_of A m), (kappa_of A (permute_columns sigma m)), (po_of A m).
      split; [apply fleiss_kappa_binary_valid, Hv|].
      rewrite (fleiss_kappa_binary_valid A Hv').
      rewrite (po_permute_columns A Hv Hp). reflexivity.
    + rewrite (fleiss_kappa_binary_valid exact Hv), (fleiss_kappa_binary_valid exact Hv').
      rewrite (kappa_permute_columns_exact Hv Hp), (po_permute_columns exact Hv Hp).
      reflexivity.
Qed.

Lemma rotation_perm : Permutation rotation (seq 0 (n_items three_by_three)).
Proof.
  unfold rotation, n_items; simpl.
  apply Permutation_sym.
  change [1; 2; 0]%nat with ([1; 2] ++ [0])%nat.
  apply Permutation_cons_append.
Qed.

Lemma reordering_invariance_witness :
  valid_matrix three_by_three /\
  (forall m', Permutation three_by_three m' ->
     fleiss_kappa_binary binary64 m' = fleiss_kappa_binary binary64 three_by_three) /\
  (forall sigma, Permutation sigma (seq 0 (n_items three_by_three)) ->
     (exists kappa kappa' po,
        fleiss_kappa_binary binary64 three_by_three = Ok (kappa, po) /\
        fleiss_kappa_binary binary64 (permute_columns sigma three_by_three) =
        Ok (kappa', po)) /\
     fleiss_kappa_binary exact (permute_columns sigma three_by_three) =
     fleiss_kappa_binary exact three_by_three).
Proof.
  split; [exact three_by_three_valid|].
  exact (reordering_invariance binary64 three_by_three_valid).
Defined.

(** C7 fails as stated: rotating the three items of [three_by_three] changes
    the order in which the per-item fractions are summed, and with it the
    last digits of kappa. *)
Lemma item_order_changes_kappa :
  valid_matrix three_by_three /\
  Permutation rotation (seq 0 (n_items three_by_three)) /\
  permute_columns rotation three_by_three = [[1; 1; 1]; [1; 1; 0]; [1; 1; 0]]%Z /\
  fleiss_kappa_binary binary64 three_by_three =
    Ok (0.35714285714285754%float, 0.77777777777777779%float) /\
  fleiss_kappa_binary binary64 (permute_columns rotation three_by_three) =
    Ok (0.35714285714285715%float, 0.77777777777777779%float) /\
  fleiss_kappa_binary binary64 (permute_columns rotation three_by_three) <>
  fleiss_kappa_binary binary64 three_by_three.
Proof.
  split; [exact three_by_three_valid|]. split; [exact rotation_perm|].
  split; [reflexivity|].
  assert (E1 : fleiss_kappa_binary binary64 three_by_three =
               Ok (0.35714285714285754%float, 0.77777777777777779%float))
    by (vm_compute; reflexivity).
  assert (E2 : fleiss_kappa_binary binary64 (permute_columns rotation three_by_three) =
               Ok (0.35714285714285715%float, 0.77777777777777779%float))
    by (vm_compute; reflexivity).
  split; [exact E1|]. split; [exact E2|].
  rewrite E1, E2. intros H.
  assert (H' : 0.35714285714285715%float = 0.35714285714285754%float)
    by congruence.
  apply (f_equal Prim2SF) in H'. vm_compute in H'. discriminate H'.
Qed.

(* ================================================================= *)
(** ** Further properties of the Agreement Calculator *)

Lemma validate_raises (m : matrix) :
  validate m = Ok tt \/
  exists msg, In msg validation_messages /\ validate m = Raise (ValueError msg).
Proof.
  rewrite validate_cases. unfold validation_messages.
  destruct (length m =? 0)%nat; [right; eexists; split; [|reflexivity]; simpl; tauto|].
  destruct (length m <? 2)%nat; [right; eexists; split; [|reflexivity]; simpl; tauto|].
  destruct (negb (distinct_lengths m =? 1)%nat);
    [right; eexists; split; [|reflexivity]; simpl; tauto|].
  destruct (existsb not_binary (concat m));
    [right; eexists; split; [|reflexivity]; simpl; tauto|].
  destruct (n_items m <? 2)%nat; [right; eexists; split; [|reflexivity]; simpl; tauto|].
  left; reflexivity.
Qed.

(** X1.  On every matrix, valid or not, [fleiss_kappa_binary] either returns
    a result, and it does so exactly when the matrix is valid, or raises a
    [ValueError] with one of the five messages of the validation.  It never
    raises [ZeroDivisionError] or [IndexError]. *)
Theorem compute_outcomes (A : arith) (m : matrix) :
  (valid_matrix m /\
   fleiss_kappa_binary A m = Ok (kappa_of A m, po_of A m)) \/
  (~ valid_matrix m /\
   exists msg, In msg validation_messages /\
               fleiss_kappa_binary A m = Raise (ValueError msg)).
Proof.
  destruct (validate_raises m) as [H|(msg & Hin & H)].
  - apply validate_ok_iff in H. left. split; [exact H|].
    apply fleiss_kappa_binary_valid, H.
  - right. split.
    + intros Hv. apply validate_ok_iff in Hv. congruence.
    + exists msg. split; [exact Hin|]. apply compute_raises, H.
Qed.

Lemma compute_ok_valid (A : arith) (m : matrix) (r : num A * num A) :
  fleiss_kappa_binary A m = Ok r -> valid_matrix m.
Proof.
  intros H. destruct (validate_raises m) as [Hv|(msg & _ & Hv)].
  - apply validate_ok_iff, Hv.
  - rewrite (compute_raises A m Hv) in H. discriminate H.
Qed.

Lemma compute_raise_message (A : arith) (m : matrix) (e : exn) :
  fleiss_kappa_binary A m = Raise e ->
  exists msg, In msg validation_messages /\ e = ValueError msg.
Proof.
  intros H. destruct (validate_raises m) as [Hv|(msg & Hin & Hv)].
  - apply validate_ok_iff in Hv.
    rewrite (fleiss_kappa_binary_valid A Hv) in H. discriminate H.
  - rewrite (compute_raises A m Hv) in H. inversion H; subst.
    exists msg. split; [exact Hin | reflexivity].
Qed.

(** X2.  On a matrix with rows of equal length holding only 0 and 1, the
    three nested loops return, as number of agreements, the sum over the
    items of the pairs among the raters marking 1 plus the pairs among the
    raters marking 0, and as total the number of items times the number of
    pairs of raters. *)
Theorem count_agreements_closed_form (m : matrix) :
  rectangular (n_items m) m -> binary m ->
  count_agreements m (length m) (n_items m) =
  Ok (zsum (map (fun col =>
                   pairs_of (ones col) +
                   pairs_of (Z.of_nat (length m) - ones col))%Z
                (columns m)),
      (Z.of_nat (n_items m) * pairs_of (Z.of_nat (length m)))%Z).
Proof.
  intros Hr Hb. rewrite (count_agreements_ok Hr).
  unfold agreements_of, total_pairs_of. rewrite total_pairs_eq.
  f_equal. f_equal. f_equal. apply map_ext_in. intros col Hin.
  rewrite (agreeing_pairs_closed_form (@columns_binary m col Hb Hin)).
  rewrite (@columns_in_length m col Hin). reflexivity.
Qed.

Lemma count_agreements_closed_form_witness :
  rectangular (n_items example_ratings) example_ratings /\
  binary example_ratings /\
  count_agreements example_ratings 3 5 = Ok (11%Z, 15%Z).
Proof.
  destruct example_valid as (_ & _ & Hr & Hb).
  split; [exact Hr|]. split; [exact Hb|].
  exact (count_agreements_closed_form Hr Hb).
Defined.

(* ----------------------------------------------------------------- *)
(** *** Exchanging the categories *)

Lemma flip_binary (v : Z) : is_binary v -> is_binary (flip v).
Proof. unfold is_binary, flip. lia. Qed.

Lemma flip_eqb (x y : Z) : (flip x =? flip y)%Z = (x =? y)%Z.
Proof.
  unfold flip. destruct (Z.eqb_spec x y) as [->|H].
  - apply Z.eqb_refl.
  - apply Z.eqb_neq. lia.
Qed.

Lemma count_eq_flip (x : Z) (l : list Z) :
  count_eq (flip x) (map flip l) = count_eq x l.
Proof.
  induction l as [|y l IH]; [reflexivity|].
  cbn [map count_eq]. rewrite flip_eqb, IH. reflexivity.
Qed.

Lemma agreeing_pairs_flip (col : list Z) :
  agreeing_pairs (map flip col) = agreeing_pairs col.
Proof.
  induction col as [|x col IH]; [reflexivity|].
  cbn [map agreeing_pairs]. rewrite count_eq_flip, IH. reflexivity.
Qed.

Lemma ones_flip (col : list Z) :
  Forall is_binary col ->
  ones (map flip col) = (Z.of_nat (length col) - ones col)%Z.
Proof.
  intros H. unfold ones at 1. change 1%Z with (flip 0).
  rewrite count_eq_flip. apply zeros_count, H.
Qed.

Lemma flip_matrix_length (m : matrix) : length (flip_matrix m) = length m.
Proof. apply length_map. Qed.

Lemma flip_matrix_n_items (m : matrix) : n_items (flip_matrix m) = n_items m.
Proof. destruct m; [reflexivity | apply length_map]. Qed.

Lemma flip_matrix_valid (m : matrix) :
  valid_matrix m -> valid_matrix (flip_matrix m).
Proof.
  intros (HR & HN & Hr & Hb). unfold valid_matrix.
  rewrite flip_matrix_length, flip_matrix_n_items.
  repeat split; try assumption.
  - unfold rectangular, flip_matrix in *. rewrite Forall_map.
    eapply Forall_impl; [|exact Hr]. intros row H. simpl.
    rewrite length_map. exact H.
  - unfold binary, flip_matrix in *. rewrite Forall_map.
    eapply Forall_impl; [|exact Hb]. intros row H. simpl.
    rewrite Forall_map. eapply Forall_impl; [|exact H].
    intros v. apply flip_binary.
Qed.

(** The columns of the exchanged matrix are the exchanged columns. *)
Lemma flip_matrix_columns (m : matrix) :
  rectangular (n_items m) m ->
  columns (flip_matrix m) = map (map flip) (columns m).
Proof.
  intros Hr. unfold columns. rewrite flip_matrix_n_items, map_map.
  apply map_ext_in. intros i Hi. apply in_seq in Hi.
  unfold column, flip_matrix. rewrite !map_map.
  apply map_ext_in. intros row Hrow.
  unfold rectangular in Hr. rewrite Forall_forall in Hr.
  rewrite (nth_indep _ 0%Z (flip 0)) by (rewrite length_map, (Hr row Hrow); lia).
  apply map_nth.
Qed.

Lemma flip_agreements (m : matrix) :
  rectangular (n_items m) m ->
  agreements_of (flip_matrix m) = agreements_of m.
Proof.
  intros Hr. unfold agreements_of. rewrite (flip_matrix_columns Hr), map_map.
  f_equal. apply map_ext. apply agreeing_pairs_flip.
Qed.

Lemma flip_po (A : arith) (m : matrix) :
  rectangular (n_items m) m -> po_of A (flip_matrix m) = po_of A m.
Proof.
  intros Hr. unfold po_of, total_pairs_of.
  rewrite (flip_agreements Hr), flip_matrix_n_items, flip_matrix_length.
  reflexivity.
Qed.

Lemma qcsum_complement (l : list Qc) :
  qcsum (map (fun f => 1 - f)%Qc l) = (zq (Z.of_nat (length l)) - qcsum l)%Qc.
Proof.
  induction l as [|f l IH].
  - simpl. change (zq 0) with (Q2Qc 0). ring.
  - cbn [map qcsum fold_right length].
    fold (qcsum (map (fun f => 1 - f)%Qc l)). fold (qcsum l). rewrite IH.
    replace (Z.of_nat (S (length l))) with (Z.of_nat (length l) + 1)%Z by lia.
    rewrite zq_plus. change (zq 1) with 1%Qc. ring.
Qed.

Lemma flip_fractions (m : matrix) :
  valid_matrix m ->
  q_fractions (flip_matrix m) = map (fun f => 1 - f)%Qc (q_fractions m).
Proof.
  intros (HR & HN & Hr & Hb). unfold q_fractions.
  rewrite (flip_matrix_columns Hr), flip_matrix_length, !map_map.
  apply map_ext_in. intros col Hin.
  rewrite (ones_flip (@columns_binary m col Hb Hin)).
  rewrite (@columns_in_length m col Hin).
  unfold Z.sub. rewrite zq_plus.
  replace (zq (- ones col)) with (- zq (ones col))%Qc.
  - field. apply zq_nonzero. lia.
  - apply Qc_is_canon. to_Q. rewrite inject_Z_opp. reflexivity.
Qed.

(** The positive rate of the exchanged matrix is the negative rate of the
    matrix. *)
Lemma flip_p_pos (m : matrix) :
  valid_matrix m -> q_p_pos (flip_matrix m) = (1 - q_p_pos m)%Qc.
Proof.
  intros Hv. pose proof Hv as (HR & HN & Hr & Hb). unfold q_p_pos.
  rewrite (flip_fractions Hv), qcsum_complement, flip_matrix_n_items.
  unfold q_fractions. rewrite length_map, columns_length.
  field. apply zq_nonzero. lia.
Qed.

(** X3.  Exchanging the two categories (every 0 becomes 1 and every 1
    becomes 0) in a valid matrix gives a valid matrix with the same observed
    agreement [po], in every arithmetic, and, without rounding, the same
    kappa. *)
Theorem category_exchange (A : arith) (m : matrix) :
  valid_matrix m ->
  valid_matrix (flip_matrix m) /\
  (exists kappa kappa' po,
     fleiss_kappa_binary A m = Ok (kappa, po) /\
     fleiss_kappa_binary A (flip_matrix m) = Ok (kappa', po)) /\
  fleiss_kappa_binary exact (flip_matrix m) = fleiss_kappa_binary exact m.
Proof.
  intros Hv. pose proof Hv as (HR & HN & Hr & Hb).
  pose proof (flip_matrix_valid Hv) as Hv'.
  split; [exact Hv'|]. split.
  - exists (kappa_of A m), (kappa_of A (flip_matrix m)), (po_of A m).
    split; [apply fleiss_kappa_binary_valid, Hv|].
    rewrite (fleiss_kappa_binary_valid A Hv'), (flip_po A Hr). reflexivity.
  - rewrite (fleiss_kappa_binary_valid exact Hv), (fleiss_kappa_binary_valid exact Hv').
    rewrite (flip_po exact Hr).
    assert (Hpe : q_p_e (flip_matrix m) = q_p_e m).
    { unfold q_p_e. rewrite (flip_p_pos Hv). ring. }
    assert (Hpo : q_po (flip_matrix m) = q_po m).
    { unfold q_po, total_pairs_of.
      rewrite (flip_agreements Hr), flip_matrix_n_items, flip_matrix_length.
      reflexivity. }
    rewrite !exact_kappa by (rewrite ?flip_matrix_n_items; lia).
    rewrite Hpe, Hpo. reflexivity.
Qed.

Lemma category_exchange_witness :
  valid_matrix example_ratings /\
  valid_matrix (flip_matrix example_ratings) /\
  (exists kappa kappa' po,
     fleiss_kappa_binary binary64 example_ratings = Ok (kappa, po) /\
     fleiss_kappa_binary binary64 (flip_matrix example_ratings) = Ok (kappa', po)) /\
  fleiss_kappa_binary exact (flip_matrix example_ratings) =
  fleiss_kappa_binary exact example_ratings.
Proof.
  split; [exact example_valid|].
  exact (category_exchange binary64 example_valid).
Defined.

(* ----------------------------------------------------------------- *)
(** *** When kappa is 1, and when it is NaN *)















(* ----------------------------------------------------------------- *)
(** *** The least kappa *)









(* ================================================================= *)
(** ** Further properties of the Contribution Analyzer *)

Lemma map_result_all_ok (X Y : Type) (f : X -> result Y) xs ys :
  map_result f xs = Ok ys -> forall x, In x xs -> exists y, f x = Ok y.
Proof.
  revert ys. induction xs as [|x0 xs IH]; intros ys H x Hx; [destruct Hx|].
  simpl in H. destruct (f x0) as [y0|e] eqn:E0; [|discriminate H].
  simpl in H. destruct (map_result f xs) as [ys'|e] eqn:E; [|discriminate H].
  destruct Hx as [<-|Hx]; [eexists; exact E0 | eapply IH; [reflexivity | exact Hx]].
Qed.

(** A comprehension fails with the exception of its first failing element. *)
Lemma map_result_first_failure (X Y : Type) (f : X -> result Y) pre x post e :
  (forall y, In y pre -> exists r, f y = Ok r) -> f x = Raise e ->
  map_result f (pre ++ x :: post) = Raise e.
Proof.
  intros Hpre Hx. induction pre as [|y pre IH]; simpl.
  - rewrite Hx. reflexivity.
  - destruct (Hpre y (or_introl eq_refl)) as [r Hr]. rewrite Hr. simpl.
    rewrite IH by (intros z Hz; apply Hpre; right; exact Hz). reflexivity.
Qed.

Lemma map_result_raise (X Y : Type) (f : X -> result Y) xs e :
  map_result f xs = Raise e -> exists x, In x xs /\ f x = Raise e.
Proof.
  induction xs as [|x0 xs IH]; intros H; simpl in H; [discriminate H|].
  destruct (f x0) as [y0|e0] eqn:E0; simpl in H.
  - destruct (map_result f xs) as [ys|e1]; simpl in H; [discriminate H|].
    inversion H; subst. destruct (IH eq_refl) as (x & Hx & Hfx).
    exists x. split; [right; exact Hx | exact Hfx].
  - inversion H; subst. exists x0. split; [left; reflexivity | exact E0].
Qed.

Lemma kappa_without_ok (A : arith) (m : matrix) (i : nat) (k : num A) :
  kappa_without A m i = Ok k ->
  exists po, fleiss_kappa_binary A (remove_row i m) = Ok (k, po).
Proof.
  unfold kappa_without. intros H.
  destruct (fleiss_kappa_binary A (remove_row i m)) as [[k' po]|e];
    [|discriminate H].
  inversion H; subst. exists po. reflexivity.
Qed.

Lemma kappa_without_raise (A : arith) (m : matrix) (i : nat) (e : exn) :
  fleiss_kappa_binary A (remove_row i m) = Raise e <->
  kappa_without A m i = Raise e.
Proof.
  unfold kappa_without.
  destruct (fleiss_kappa_binary A (remove_row i m)) as [[k po]|e']; simpl;
    split; intros H; congruence.
Qed.

(** Once all the scores are computed, and there is at least one, neither
    [max] nor [list.index] fails. *)
Lemma analysis_of_scores (A : arith) (m : matrix) (ks : list (num A)) :
  map_result (kappa_without A m) (seq 0 (length m)) = Ok ks -> ks <> [] ->
  exists idx h,
    py_max A ks = Ok h /\ index_from A ks 0 h = Ok idx /\
    reviewer_contribution_analysis A m = Ok (idx, snd h, ks).
Proof.
  intros Hks Hne.
  destruct (py_max A ks) as [h|e] eqn:Emax;
    [|destruct ks; [congruence | discriminate Emax]].
  destruct (py_max_position A ks (snd h) Emax) as [Hpos _].
  destruct (@index_from_found A ks 0 h) as [idx Eidx]; [lia|].
  exists idx, h. split; [reflexivity|]. split; [exact Eidx|].
  rewrite analysis_unfold, Hks. cbn [bind]. rewrite Emax. cbn [bind].
  unfold py_index. rewrite Eidx. reflexivity.
Qed.

Lemma analysis_ok_scores (A : arith) (m : matrix) idx best ks :
  reviewer_contribution_analysis A m = Ok (idx, best, ks) ->
  map_result (kappa_without A m) (seq 0 (length m)) = Ok ks /\
  exists h, py_max A ks = Ok h /\ index_from A ks 0 h = Ok idx /\ best = snd h.
Proof.
  rewrite analysis_unfold. intros H.
  destruct (map_result (kappa_without A m) (seq 0 (length m))) as [ks'|e];
    [|discriminate H].
  cbn [bind] in H.
  destruct (py_max A ks') as [h|e] eqn:Emax; [|discriminate H]. cbn [bind] in H.
  destruct (py_index A ks' h) as [i|e] eqn:Ei; [|discriminate H]. cbn [bind] in H.
  inversion H; subst. split; [reflexivity|].
  exists h. repeat split; assumption.
Qed.

(** X7.  [reviewer_contribution_analysis] returns a result exactly on the
    valid matrices with at least 3 raters; on every other matrix it
    raises. *)
Theorem analysis_success_iff (A : arith) (m : matrix) :
  (exists r, reviewer_contribution_analysis A m = Ok r) <->
  valid_matrix m /\ (3 <= length m)%nat.
Proof.
  split.
  - intros [[[idx best] ks] H].
    destruct (analysis_ok_scores A m H) as [Hks _].
    pose proof (map_result_all_ok _ _ Hks) as Hall.
    assert (Hred : forall i, (i < length m)%nat -> valid_matrix (remove_row i m)).
    { intros i Hi. destruct (Hall i) as [k Hk]; [apply in_seq; lia|].
      destruct (kappa_without_ok A m i Hk) as [po Hpo].
      exact (compute_ok_valid A _ Hpo). }
    pose proof (Hlen_ks := map_result_length _ _ Hks).
    rewrite length_seq in Hlen_ks.
    destruct (analysis_ok_scores A m H) as (_ & h & Hmax & _).
    destruct m as [|r0 [|r1 [|r2 rest]]].
    + destruct ks; [discriminate Hmax | discriminate Hlen_ks].
    + specialize (Hred 0%nat ltac:(simpl; lia)). destruct Hred as [Hlen _].
      simpl in Hlen. lia.
    + specialize (Hred 0%nat ltac:(simpl; lia)). destruct Hred as [Hlen _].
      simpl in Hlen. lia.
    + pose proof (Hred 0%nat ltac:(simpl; lia)) as (_ & HN0 & Hr0 & Hb0).
      pose proof (Hred 1%nat ltac:(simpl; lia)) as (_ & HN1 & Hr1 & Hb1).
      unfold remove_row, n_items, rectangular, binary in *. simpl in *.
      inversion Hr0 as [|? ? _ Hr0']; subst.
      inversion Hr0' as [|? ? E2 _]; subst.
      inversion Hr1 as [|? ? _ Hr1']; subst.
      inversion Hr1' as [|? ? E2' Hrest]; subst.
      inversion Hb0 as [|? ? Hb_r1 _]; subst.
      split; [|lia]. unfold valid_matrix, n_items, rectangular, binary. simpl.
      repeat split; try lia; try assumption.
      constructor; [reflexivity|]. constructor; [congruence|].
      constructor; assumption.
      inversion Hb1; subst. constructor; [assumption|].
      constructor; assumption.
  - intros [Hv H3].
    destruct (@analysis_of_scores A m
                (map (fun i => kappa_of A (remove_row i m)) (seq 0 (length m))))
      as (idx & h & _ & _ & H).
    + apply scores_valid; assumption.
    + intros E. apply (f_equal (@length _)) in E.
      rewrite length_map, length_seq in E. simpl in E. lia.
    + eexists. exact H.
Qed.

(** X8.  With fewer than 3 rows the analyzer fails whatever the ratings are:
    on no row with the error of [max] on an empty list, on one row with the
    message "The ratings list is empty." of the Agreement Calculator (the
    only reduced matrix is empty), on two rows with "There should be at
    least two raters.". *)
Theorem analysis_few_raters (A : arith) (m : matrix) :
  (length m = 0%nat ->
   reviewer_contribution_analysis A m = Raise (ValueError msg_max_empty)) /\
  (length m = 1%nat ->
   reviewer_contribution_analysis A m = Raise (ValueError msg_empty)) /\
  (length m = 2%nat ->
   reviewer_contribution_analysis A m = Raise (ValueError msg_raters)).
Proof.
  repeat split; intros H.
  - destruct m; [reflexivity | discriminate H].
  - destruct m as [|r0 [|r1 m']]; try discriminate H. reflexivity.
  - destruct m as [|r0 [|r1 [|r2 m']]]; try discriminate H.
    rewrite analysis_unfold. cbn [length seq map_result].
    unfold kappa_without at 1.
    assert (E : fleiss_kappa_binary A (remove_row 0 [r0; r1]) =
                Raise (ValueError msg_raters)) by reflexivity.
    rewrite E. reflexivity.
Qed.

Lemma analysis_few_raters_witness :
  reviewer_contribution_analysis binary64 [] = Raise (ValueError msg_max_empty) /\
  reviewer_contribution_analysis binary64 [[1; 0; 1]]%Z =
    Raise (ValueError msg_empty) /\
  reviewer_contribution_analysis binary64 [[1; 0; 1]; [7]]%Z =
    Raise (ValueError msg_raters).
Proof.
  pose proof (analysis_few_raters binary64 []) as (H0 & _).
  pose proof (analysis_few_raters binary64 [[1; 0; 1]]%Z) as (_ & H1 & _).
  pose proof (analysis_few_raters binary64 [[1; 0; 1]; [7]]%Z) as (_ & _ & H2).
  split; [|split].
  - exact (H0 eq_refl).
  - exact (H1 eq_refl).
  - exact (H2 eq_refl).
Defined.

Lemma seq_split_at (n i : nat) :
  (i < n)%nat -> seq 0 n = seq 0 i ++ i :: seq (S i) (n - S i).
Proof.
  intros H. replace n with (i + S (n - S i))%nat at 1 by lia.
  rewrite seq_app. reflexivity.
Qed.

(** X9.  The analyzer fails with the exception of the first reduced matrix
    on which the Agreement Calculator fails: if the calculator returns on
    the matrices without row [j] for all [j < i] and raises [e] on the
    matrix without row [i], the analysis raises [e]. *)
Theorem analysis_first_failure (A : arith) (m : matrix) (i : nat) (e : exn) :
  (i < length m)%nat ->
  (forall j, (j < i)%nat ->
     exists r, fleiss_kappa_binary A (remove_row j m) = Ok r) ->
  fleiss_kappa_binary A (remove_row i m) = Raise e ->
  reviewer_contribution_analysis A m = Raise e.
Proof.
  intros Hi Hbefore Hat.
  rewrite analysis_unfold, (seq_split_at Hi).
  rewrite (@map_result_first_failure _ _ (kappa_without A m) (seq 0 i) i
             (seq (S i) (length m - S i)) e).
  - reflexivity.
  - intros j Hj. apply in_seq in Hj.
    destruct (Hbefore j) as [[k po] Hr]; [lia|].
    exists k. unfold kappa_without. rewrite Hr. reflexivity.
  - apply kappa_without_raise, Hat.
Qed.

Lemma analysis_first_failure_witness :
  (1 < length bad_first_row)%nat /\
  (forall j, (j < 1)%nat ->
     exists r, fleiss_kappa_binary binary64 (remove_row j bad_first_row) = Ok r) /\
  fleiss_kappa_binary binary64 (remove_row 1 bad_first_row) =
    Raise (ValueError msg_binary) /\
  reviewer_contribution_analysis binary64 bad_first_row =
    Raise (ValueError msg_binary).
Proof.
  assert (H1 : (1 < length bad_first_row)%nat) by (simpl; lia).
  assert (H2 : forall j, (j < 1)%nat ->
     exists r, fleiss_kappa_binary binary64 (remove_row j bad_first_row) = Ok r).
  { intros j Hj. assert (j = 0%nat) as -> by lia.
    eexists. vm_compute. reflexivity. }
  assert (H3 : fleiss_kappa_binary binary64 (remove_row 1 bad_first_row) =
               Raise (ValueError msg_binary)) by reflexivity.
  split; [exact H1|]. split; [exact H2|]. split; [exact H3|].
  exact (analysis_first_failure binary64 bad_first_row H1 H2 H3).
Defined.

(** X10.  Every exception of the analyzer is a [ValueError]: the one of
    [max] on the empty matrix, and on any other matrix one of the five
    messages of the validation.  It never raises [IndexError] or
    [ZeroDivisionError], and its [list.index] never fails to find the
    maximum. *)
Theorem analysis_exceptions (A : arith) (m : matrix) (e : exn) :
  reviewer_contribution_analysis A m = Raise e ->
  (m = [] /\ e = ValueError msg_max_empty) \/
  (m <> [] /\ exists msg, In msg validation_messages /\ e = ValueError msg).
Proof.
  intros H. destruct m as [|r0 m'] eqn:Em.
  - left. split; [reflexivity|]. inversion H. reflexivity.
  - right. split; [discriminate|]. rewrite <- Em in *.
    destruct (map_result (kappa_without A m) (seq 0 (length m))) as [ks|e'] eqn:E.
    + exfalso. destruct (@analysis_of_scores A m ks E) as (idx & h & _ & _ & Hok).
      * intros ->. apply map_result_length in E. rewrite length_seq, Em in E.
        discriminate E.
      * congruence.
    + rewrite analysis_unfold, E in H. inversion H; subst e'.
      destruct (map_result_raise _ _ E) as (i & _ & Hi).
      apply kappa_without_raise in Hi.
      exact (compute_raise_message A _ Hi).
Qed.

Lemma analysis_exceptions_witness :
  reviewer_contribution_analysis binary64 two_raters =
    Raise (ValueError msg_raters) /\
  ((two_raters = [] /\ ValueError msg_raters = ValueError msg_max_empty) \/
   (two_raters <> [] /\
    exists msg, In msg validation_messages /\
                ValueError msg_raters = ValueError msg)).
Proof.
  assert (H : reviewer_contribution_analysis binary64 two_raters =
              Raise (ValueError msg_raters)) by reflexivity.
  split; [exact H|].
  exact (analysis_exceptions binary64 two_raters H).
Defined.

(* ----------------------------------------------------------------- *)
(** *** The reported maximum is never beaten *)

Lemma SFltb_irrefl (x : spec_float) : SFltb x x = false.
Proof.
  unfold SFltb, SFcompare.
  change PosDef.Pos.compare_cont with Pos.compare_cont.
  destruct x as [s|s| |s m e]; try reflexivity; destruct s; try reflexivity;
    fold (Pos.compare m m); rewrite Z.compare_refl, Pos.compare_refl; reflexivity.
Qed.

Lemma SFltb_trans (x y z : spec_float) :
  SFltb x y = true -> SFltb y z = true -> SFltb x z = true.
Proof.
  unfold SFltb, SFcompare.
  change PosDef.Pos.compare_cont with Pos.compare_cont.
  destruct x as [sx|sx| |sx mx ex], y as [sy|sy| |sy my ey],
           z as [sz|sz| |sz mz ez];
    try discriminate; try reflexivity;
    try destruct sx; try destruct sy; try destruct sz;
    try discriminate; try reflexivity;
    fold (Pos.compare mx my); fold (Pos.compare my mz); fold (Pos.compare mx mz);
    intros H1 H2; compare_cases.
Qed.

Lemma binary64_strict_order : strict_order_laws binary64.
Proof.
  constructor; cbn [ltb binary64]; intros *; rewrite ?b64_ltb.
  - apply SFltb_irrefl.
  - apply SFltb_trans.
Qed.


Lemma max_loop_unbeaten (A : arith) (items : list (num A)) :
  strict_order_laws A ->
  forall (seen : list (num A)) (pos : nat) (cur : nat * num A),
    (forall x, In x seen -> ltb A (snd cur) x = false) ->
    forall x, In x (seen ++ items) ->
              ltb A (snd (max_loop A items pos cur)) x = false.
Proof.
  intros L. induction items as [|item items IH]; intros seen pos cur Hseen x Hx.
  - simpl. rewrite app_nil_r in Hx. auto.
  - cbn [max_loop]. apply (IH (seen ++ [item])).
    + intros y Hy. apply in_app_or in Hy. unfold gtb.
      destruct (ltb A (snd cur) item) eqn:E; cbn [snd].
      * destruct Hy as [Hy|[<-|[]]]; [|apply (ltb_irrefl L)].
        destruct (ltb A item y) eqn:E'; [|reflexivity].
        rewrite <- (Hseen y Hy). symmetry.
        apply (ltb_trans L) with (y := item); assumption.
      * destruct Hy as [Hy|[<-|[]]]; [auto | exact E].
    + rewrite <- app_assoc. exact Hx.
Qed.

(** X11.  Whenever the analyzer returns [(index, best, scores)], NaN among
    the scores or not: [best] is one of the scores, no score is greater than
    [best], the score at [index] is [best] itself or compares equal to it,
    and no earlier score compares equal to [best].  This holds in every
    arithmetic whose [<] is a strict order, binary64 included. *)
Theorem analysis_best_unbeaten (A : arith) (m : matrix) idx best ks :
  strict_order_laws A ->
  reviewer_contribution_analysis A m = Ok (idx, best, ks) ->
  In best ks /\
  (forall x, In x ks -> ltb A best x = false) /\
  (nth idx ks best = best \/ eqb A (nth idx ks best) best = true) /\
  (forall j, (j < idx)%nat -> eqb A (nth j ks best) best = false).
Proof.
  intros L H.
  destruct (analysis_ok_scores A m H) as (_ & h & Hmax & Hidx & ->).
  destruct (py_max_position A ks (snd h) Hmax) as [Hpos Hnth].
  destruct (index_from_first _ _ _ _ (snd h) Hidx) as [Hat Hbefore].
  rewrite Nat.sub_0_r in Hat.
  split; [rewrite <- Hnth; apply nth_In; exact Hpos|]. split; [|split].
  - destruct ks as [|x0 ks']; [discriminate Hmax|].
    simpl in Hmax. inversion Hmax; subst h. intros x Hx.
    apply (@max_loop_unbeaten A ks' L [x0] 1%nat (0%nat, x0)).
    + intros y [<-|[]]. apply (ltb_irrefl L).
    + exact Hx.
  - destruct Hat as [->|Hat]; [left; exact Hnth | right; exact Hat].
  - intros j Hj. destruct (Hbefore j) as [_ Hb]; [lia|].
    rewrite Nat.sub_0_r in Hb. exact Hb.
Qed.

Lemma analysis_best_unbeaten_witness :
  strict_order_laws binary64 /\
  reviewer_contribution_analysis binary64 dissenter_first =
    Ok (0%nat, nan,
        [nan; (-0.33333333333333331)%float; (-0.33333333333333331)%float]) /\
  In nan [nan; (-0.33333333333333331)%float; (-0.33333333333333331)%float] /\
  (forall x,
     In x [nan; (-0.33333333333333331)%float; (-0.33333333333333331)%float] ->
     ltb binary64 nan x = false).
Proof.
  assert (H : reviewer_contribution_analysis binary64 dissenter_first =
    Ok (0%nat, nan,
        [nan; (-0.33333333333333331)%float; (-0.33333333333333331)%float]))
    by (vm_compute; reflexivity).
  split; [exact binary64_strict_order|]. split; [exact H|].
  destruct (analysis_best_unbeaten dissenter_first binary64_strict_order H)
    as (H1 & H2 & _).
  split; [exact H1 | exact H2].
Defined.

(* ================================================================= *)
(** ** The user interface *)

(** The guard of line 126 lets through the matrices with [num_reviewers]
    rows of [num_items] ratings each. *)
Lemma shape_guard (ratings : matrix) (nr ni : nat) :
  negb (length ratings =? nr)%nat
  || existsb (fun r => negb (length r =? ni)%nat) ratings = false <->
  length ratings = nr /\ rectangular ni ratings.
Proof.
  rewrite orb_false_iff, negb_false_iff, Nat.eqb_eq. unfold rectangular.
  split; intros [H1 H2]; (split; [exact H1|]).
  - apply Forall_forall. intros r Hr.
    destruct (length r =? ni)%nat eqn:E; [apply Nat.eqb_eq, E|].
    exfalso.
    assert (Hex : existsb (fun r => negb (length r =? ni)%nat) ratings = true).
    { apply existsb_exists. exists r. rewrite E. split; [exact Hr | reflexivity]. }
    congruence.
  - destruct (existsb (fun r => negb (length r =? ni)%nat) ratings) eqn:E;
      [|reflexivity].
    apply existsb_exists in E. destruct E as (r & Hr & E).
    rewrite Forall_forall in H2.
    rewrite (proj2 (Nat.eqb_eq _ _) (H2 r Hr)) in E. discriminate E.
Qed.





Lemma analysis_raise_value_error (A : arith) (m : matrix) (e : exn) :
  reviewer_contribution_analysis A m = Raise e -> exists msg, e = ValueError msg.
Proof.
  intros H. destruct m as [|r0 m'] eqn:Em.
  - inversion H. eexists; reflexivity.
  - rewrite <- Em in *.
    destruct (map_result (kappa_without A m) (seq 0 (length m))) as [ks|e'] eqn:E.
    + exfalso. destruct (@analysis_of_scores A m ks E) as (idx & h & _ & _ & Hok).
      * intros ->. apply map_result_length in E. rewrite length_seq, Em in E.
        discriminate E.
      * congruence.
    + rewrite analysis_unfold, E in H. inversion H; subst e'.
      destruct (map_result_raise _ _ E) as (i & _ & Hi).
      apply kappa_without_raise in Hi.
      destruct (compute_raise_message A _ Hi) as (msg & _ & ->).
      eexists; reflexivity.
Qed.

(** X12.  Whatever the matrix and the two numbers entered, no exception
    leaves the handler of the button: every exception that
    [fleiss_kappa_binary] or [reviewer_contribution_analysis] can raise is a
    [ValueError], which line 137 catches. *)
Theorem on_calculate_no_exception (A : arith) (ratings : matrix) (nr ni : nat) :
  snd (on_calculate A ratings nr ni) = None.
Proof.
  unfold on_calculate, calculate_body.
  destruct (negb (length ratings =? nr)%nat
            || existsb (fun r => negb (length r =? ni)%nat) ratings);
    [reflexivity|].
  destruct (fleiss_kappa_binary A ratings) as [[kappa po]|e] eqn:E.
  - destruct (reviewer_contribution_analysis A ratings) as [[[idx best] ks]|e]
      eqn:E'; [reflexivity|].
    destruct (analysis_raise_value_error A ratings E') as [msg ->]. reflexivity.
  - destruct (compute_raise_message A ratings E) as (msg & _ & ->). reflexivity.
Qed.



(* ----------------------------------------------------------------- *)
(** *** Reading the texts *)

Lemma string_length_zero (s : string) :
  (String.length s =? 0)%nat = true <-> s = EmptyString.
Proof.
  destruct s; simpl; split; intros H; try reflexivity; discriminate H.
Qed.

Lemma split_comma_length (rating : string) :
  length (split_comma rating) = (count_commas rating + 1)%nat.
Proof.
  induction rating as [|c rest IH]; simpl; [reflexivity|].
  destruct (Ascii.eqb c ","%char); simpl.
  - rewrite IH. lia.
  - destruct (split_comma rest); simpl in *; lia.
Qed.

Lemma parse_rating_length (py_int : string -> result Z) rating row :
  parse_rating py_int rating = Ok row ->
  length row = (count_commas rating + 1)%nat.
Proof.
  intros H. apply map_result_length in H. rewrite H. apply split_comma_length.
Qed.

(** The loop of lines 117 to 121 as a comprehension over the texts that are
    not empty. *)
Lemma read_ratings_unfold (py_int : string -> result Z) texts :
  forall acc,
    read_ratings py_int texts acc =
    (rows <- map_result (parse_rating py_int) (entered texts) ;;
     Ok (acc ++ rows)).
Proof.
  induction texts as [|t texts IH]; intros acc; simpl.
  - rewrite app_nil_r. reflexivity.
  - destruct (String.length t =? 0)%nat; simpl; [apply IH|].
    destruct (parse_rating py_int t) as [row|e]; simpl; [|reflexivity].
    rewrite IH.
    destruct (map_result (parse_rating py_int) (entered texts)) as [rows|e];
      simpl; [|reflexivity].
    rewrite <- app_assoc. reflexivity.
Qed.

Lemma read_ratings_rows (py_int : string -> result Z) texts ratings :
  read_ratings py_int texts [] = Ok ratings <->
  map_result (parse_rating py_int) (entered texts) = Ok ratings.
Proof.
  rewrite read_ratings_unfold.
  destruct (map_result (parse_rating py_int) (entered texts)); simpl;
    split; intros H; congruence.
Qed.

Lemma map_result_Forall2 (X Y : Type) (f : X -> result Y) xs :
  forall ys, map_result f xs = Ok ys -> Forall2 (fun x y => f x = Ok y) xs ys.
Proof.
  induction xs as [|x xs IH]; intros ys H; simpl in H.
  - inversion H. constructor.
  - destruct (f x) as [y|e] eqn:E; simpl in H; [|discriminate H].
    destruct (map_result f xs) as [ys'|e]; simpl in H; [|discriminate H].
    inversion H; subst. constructor; [exact E | apply IH; reflexivity].
Qed.

Lemma Forall2_nth (X Y : Type) (P : X -> Y -> Prop) xs ys dx dy :
  Forall2 P xs ys ->
  forall i, (i < length xs)%nat -> P (nth i xs dx) (nth i ys dy).
Proof.
  induction 1 as [|x y xs ys Hxy _ IH]; intros i Hi; simpl in Hi; [lia|].
  destruct i; simpl; [exact Hxy | apply IH; lia].
Qed.

Lemma entered_all (texts : list string) :
  length (entered texts) = length texts <->
  Forall (fun t => t <> EmptyString) texts.
Proof.
  unfold entered. induction texts as [|t texts IH]; simpl.
  - split; [constructor | reflexivity].
  - pose proof (filter_length_le
                  (fun rating => negb (String.length rating =? 0)%nat) texts) as Hle.
    destruct (String.length t =? 0)%nat eqn:E; simpl.
    + split; [lia|]. intros H. inversion H; subst.
      apply string_length_zero in E. contradiction.
    + split.
      * intros H. constructor.
        -- intros ->. discriminate E.
        -- apply IH. lia.
      * intros H. inversion H; subst. f_equal. apply IH. assumption.
Qed.

Lemma entered_same (texts : list string) :
  Forall (fun t => t <> EmptyString) texts -> entered texts = texts.
Proof.
  unfold entered. induction 1 as [|t texts Ht _ IH]; simpl; [reflexivity|].
  destruct (String.length t =? 0)%nat eqn:E.
  - apply string_length_zero in E. contradiction.
  - simpl. f_equal. exact IH.
Qed.

(** X14.  Whenever the reading loop ends with as many rows as there are
    reviewers, row [i] of the matrix is the reading of the text of reviewer
    [i]: the rows that an empty text shifts never pass the guard on the
    number of rows. *)
Theorem rows_match_reviewers (py_int : string -> result Z) texts ratings :
  read_ratings py_int texts [] = Ok ratings ->
  length ratings = length texts ->
  forall i, (i < length texts)%nat ->
    nth i texts EmptyString <> EmptyString /\
    parse_rating py_int (nth i texts EmptyString) = Ok (nth i ratings []).
Proof.
  intros H Hlen i Hi. apply read_ratings_rows in H.
  pose proof (map_result_length _ _ H) as Hl.
  assert (Hall : Forall (fun t => t <> EmptyString) texts)
    by (apply entered_all; congruence).
  rewrite (entered_same Hall) in H. split.
  - rewrite Forall_forall in Hall. apply Hall, nth_In, Hi.
  - apply (Forall2_nth EmptyString [] (map_result_Forall2 _ _ H)). exact Hi.
Qed.

Lemma rows_match_reviewers_witness :
  read_ratings bit_int ["1,0"; "0,1"; "1,1"]%string [] =
    Ok [[1; 0]; [0; 1]; [1; 1]]%Z /\
  parse_rating bit_int "0,1" = Ok [0; 1]%Z.
Proof.
  assert (H : read_ratings bit_int ["1,0"; "0,1"; "1,1"]%string [] =
              Ok [[1; 0]; [0; 1]; [1; 1]]%Z) by reflexivity.
  split; [exact H|].
  exact (proj2 (@rows_match_reviewers bit_int _ _ H eq_refl 1%nat
                  (le_n_S _ _ (le_n_S _ _ (le_0_n _))))).
Defined.

Lemma rows_rectangular (py_int : string -> result Z) (ni : nat) texts ratings :
  Forall2 (fun t row => parse_rating py_int t = Ok row) texts ratings ->
  (rectangular ni ratings <->
   Forall (fun t => (count_commas t + 1)%nat = ni) texts).
Proof.
  unfold rectangular.
  induction 1 as [|t row texts ratings Hp _ IH].
  - split; constructor.
  - apply parse_rating_length in Hp.
    split; intros H; inversion H; subst; constructor;
      try (apply IH; assumption); congruence.
Qed.

Lemma texts_shape (py_int : string -> result Z) (ni : nat) texts ratings :
  read_ratings py_int texts [] = Ok ratings ->
  (length ratings = length texts /\ rectangular ni ratings <->
   Forall (fun t => t <> EmptyString /\ (count_commas t + 1)%nat = ni) texts).
Proof.
  intros H. apply read_ratings_rows in H.
  pose proof (map_result_length _ _ H) as Hl.
  split.
  - intros [Hlen Hrect].
    assert (Hall : Forall (fun t => t <> EmptyString) texts)
      by (apply entered_all; congruence).
    apply Forall_and; [exact Hall|]. rewrite (entered_same Hall) in H.
    apply (@rows_rectangular py_int ni _ _ (map_result_Forall2 _ _ H)). exact Hrect.
  - intros Hboth. apply Forall_and_inv in Hboth. destruct Hboth as [Hall Hcount].
    rewrite (entered_same Hall) in H, Hl.
    split; [exact Hl|].
    apply (@rows_rectangular py_int ni _ _ (map_result_Forall2 _ _ H)). exact Hcount.
Qed.

Lemma on_calculate_incomplete (A : arith) (ratings : matrix) (nr ni : nat) :
  on_calculate A ratings nr ni = ([StError msg_incomplete], None) <->
  ~ (length ratings = nr /\ rectangular ni ratings).
Proof.
  rewrite <- shape_guard. unfold on_calculate, calculate_body.
  destruct (negb (length ratings =? nr)%nat
            || existsb (fun r => negb (length r =? ni)%nat) ratings).
  - split; [discriminate | reflexivity].
  - split; [|congruence]. intros H. exfalso.
    destruct (fleiss_kappa_binary A ratings) as [[kappa po]|e].
    + destruct (reviewer_contribution_analysis A ratings)
        as [[[idx best] ks]|[msg| |]]; simpl in H; discriminate H.
    + destruct e as [msg| |]; simpl in H; discriminate H.
Qed.

(** X15.  Once the texts are read, a press of the button asks to complete
    the ratings, and shows nothing else, exactly when a text was left empty
    or holds a number of commas other than [num_items - 1]; whether the
    pieces between the commas are 0 or 1 plays no part in it. *)
Theorem incomplete_iff (A : arith) (py_int : string -> result Z)
        texts ratings (nr ni : nat) :
  read_ratings py_int texts [] = Ok ratings -> length texts = nr ->
  (on_calculate A ratings nr ni = ([StError msg_incomplete], None) <->
   Exists (fun t => t = EmptyString \/ (count_commas t + 1)%nat <> ni) texts).
Proof.
  intros H Hlen. rewrite on_calculate_incomplete, <- Hlen, (@texts_shape py_int ni _ _ H).
  split.
  - intros Hn. apply neg_Forall_Exists_neg in Hn.
    + revert Hn. apply Exists_impl. intros t Ht.
      destruct (string_dec t EmptyString) as [E|E]; [left; exact E|].
      right. intros Hc. apply Ht. split; assumption.
    + intros t. destruct (string_dec t EmptyString) as [E|E];
        [right; intros [Hne _]; contradiction|].
      destruct (Nat.eq_dec (count_commas t + 1) ni) as [E'|E'];
        [left; split; assumption | right; intros [_ Hc]; contradiction].
  - intros Hex Hall. apply Exists_exists in Hex. destruct Hex as (t & Hin & Ht).
    rewrite Forall_forall in Hall. destruct (Hall t Hin) as [Hne Hc].
    destruct Ht as [Ht|Ht]; contradiction.
Qed.

Lemma incomplete_iff_witness :
  read_ratings bit_int ["1,0"; ""; "0,1"]%string [] = Ok [[1; 0]; [0; 1]]%Z /\
  on_calculate binary64 [[1; 0]; [0; 1]]%Z 3 2 = ([StError msg_incomplete], None).
Proof.
  assert (H : read_ratings bit_int ["1,0"; ""; "0,1"]%string [] =
              Ok [[1; 0]; [0; 1]]%Z) by reflexivity.
  split; [exact H|].
  apply (proj2 (@incomplete_iff binary64 bit_int _ _ 3%nat 2%nat H eq_refl)).
  apply Exists_cons_tl, Exists_cons_hd. left. reflexivity.
Defined.

(** X16.  [rating.split(',')] loses nothing: no piece holds a comma, there
    is one piece more than there are commas, and the pieces joined by commas
    are the text again. *)
Theorem split_comma_round_trip (rating : string) :
  Forall (fun piece => count_commas piece = 0%nat) (split_comma rating) /\
  length (split_comma rating) = (count_commas rating + 1)%nat /\
  String.concat "," (split_comma rating) = rating.
Proof.
  split; [|split; [apply split_comma_length|]].
  - induction rating as [|c rest IH]; simpl; [repeat constructor|].
    destruct (Ascii.eqb c ","%char) eqn:E.
    + constructor; [reflexivity | exact IH].
    + destruct (split_comma rest) as [|piece pieces].
      * constructor; [simpl; rewrite E; reflexivity | constructor].
      * inversion IH; subst. constructor; [simpl; rewrite E; lia | assumption].
  - induction rating as [|c rest IH]; simpl; [reflexivity|].
    pose proof (split_comma_length rest) as Hl.
    destruct (Ascii.eqb c ","%char) eqn:E.
    + apply Ascii.eqb_eq in E. subst c.
      destruct (split_comma rest) as [|piece pieces] eqn:Es;
        [simpl in Hl; lia|].
      rewrite <- IH. reflexivity.
    + destruct (split_comma rest) as [|piece [|piece' pieces]] eqn:Es;
        [simpl in Hl; lia | |].
      * simpl in *. congruence.
      * rewrite <- IH. reflexivity.
Qed.

(* ================================================================= *)
(** ** NaN among the scores of the analyzer *)

Lemma SFeqb_refl (x : spec_float) : x <> S754_nan -> SFeqb x x = true.
Proof.
  unfold SFeqb, SFcompare.
  change PosDef.Pos.compare_cont with Pos.compare_cont.
  destruct x as [s|s| |s m e]; intros H; try congruence;
    destruct s; try reflexivity;
    fold (Pos.compare m m); rewrite Z.compare_refl, Pos.compare_refl;
    reflexivity.
Qed.

Lemma SFltb_num (x y : spec_float) :
  SFltb x y = true -> SFeqb x x = true /\ SFeqb y y = true.
Proof.
  intros H. split; apply SFeqb_refl; intros ->; revert H; unfold SFltb, SFcompare.
  - discriminate.
  - destruct x; discriminate.
Qed.

Lemma binary64_nan_unordered : nan_unordered binary64.
Proof.
  intros x y. unfold is_num. cbn [ltb eqb binary64].
  rewrite b64_ltb, !b64_eqb. apply SFltb_num.
Qed.


Lemma is_num_dec (A : arith) (x : num A) : is_num A x \/ ~ is_num A x.
Proof.
  unfold is_num. destruct (eqb A x x); [left; reflexivity | right; discriminate].
Qed.

(** Once NaN is the candidate of [max], it stays. *)
Lemma max_loop_nan (A : arith) (items : list (num A)) :
  nan_unordered A ->
  forall pos cur, ~ is_num A (snd cur) -> max_loop A items pos cur = cur.
Proof.
  intros N. induction items as [|item items IH]; intros pos cur Hc; simpl;
    [reflexivity|].
  unfold gtb. destruct (ltb A (snd cur) item) eqn:E.
  - exfalso. apply Hc. apply (N _ _ E).
  - apply IH. exact Hc.
Qed.

(** A candidate that is a number is only replaced by a number. *)
Lemma max_loop_num (A : arith) (items : list (num A)) :
  nan_unordered A ->
  forall pos cur, is_num A (snd cur) ->
                  is_num A (snd (max_loop A items pos cur)).
Proof.
  intros N. induction items as [|item items IH]; intros pos cur Hc; simpl;
    [exact Hc|].
  apply IH. unfold gtb. destruct (ltb A (snd cur) item) eqn:E; [|exact Hc].
  apply (N _ _ E).
Qed.

(** X17.  The analyzer reports NaN as highest kappa exactly when the first
    score, the kappa without the first reviewer, is NaN; it then reports
    the first reviewer, whatever the other scores are. *)
Theorem analysis_nan_first (A : arith) (m : matrix) idx best ks :
  nan_unordered A ->
  reviewer_contribution_analysis A m = Ok (idx, best, ks) ->
  (is_num A best <-> is_num A (nth 0 ks best)) /\
  (~ is_num A best -> idx = 0%nat /\ best = nth 0 ks best).
Proof.
  intros N H.
  destruct (analysis_ok_scores A m H) as (_ & h & Hmax & Hidx & ->).
  destruct ks as [|x0 ks']; [discriminate Hmax|].
  assert (Hh : h = max_loop A ks' 1 (0%nat, x0)) by (simpl in Hmax; congruence).
  clear Hmax. cbn [nth].
  assert (Hnan : ~ is_num A x0 -> h = (0%nat, x0)).
  { intros Hx. rewrite Hh. apply max_loop_nan; assumption. }
  assert (Hnum : is_num A x0 -> is_num A (snd h)).
  { intros Hx. rewrite Hh. apply max_loop_num; assumption. }
  clear Hh.
  split.
  - split; [|exact Hnum]. intros Hb.
    destruct (is_num_dec A x0) as [Hx|Hx]; [exact Hx|].
    rewrite (Hnan Hx) in Hb. exact Hb.
  - intros Hb. assert (Hx : ~ is_num A x0) by (intros Hx; apply Hb, Hnum, Hx).
    rewrite (Hnan Hx) in *. simpl in Hidx. inversion Hidx.
    split; reflexivity.
Qed.

Lemma analysis_nan_first_witness :
  nan_unordered binary64 /\
  reviewer_contribution_analysis binary64 dissenter_first =
    Ok (0%nat, nan,
        [nan; (-0.33333333333333331)%float; (-0.33333333333333331)%float]) /\
  ~ is_num binary64 nan /\
  (0%nat = 0%nat /\
   nan = nth 0 [nan; (-0.33333333333333331)%float;
                (-0.33333333333333331)%float] nan).
Proof.
  assert (H : reviewer_contribution_analysis binary64 dissenter_first =
    Ok (0%nat, nan,
        [nan; (-0.33333333333333331)%float; (-0.33333333333333331)%float]))
    by (vm_compute; reflexivity).
  assert (Hn : ~ is_num binary64 nan) by (vm_compute; discriminate).
  split; [exact binary64_nan_unordered|]. split; [exact H|].
  split; [exact Hn|].
  exact (proj2 (analysis_nan_first dissenter_first binary64_nan_unordered H) Hn).
Defined.

(** X18.  When the first score is a number, the analyzer passes over the
    NaN scores: it reports a number that no numeric score exceeds, and the
    first reviewer whose score equals it. *)
Theorem analysis_best_of_numbers (A : arith) (m : matrix) idx best ks :
  order_laws A -> strict_order_laws A -> nan_unordered A ->
  reviewer_contribution_analysis A m = Ok (idx, best, ks) ->
  is_num A (nth 0 ks best) ->
  is_num A best /\
  (forall x, In x ks -> is_num A x -> leb A x best = true) /\
  eqb A (nth idx ks best) best = true /\
  (forall j, (j < idx)%nat -> eqb A (nth j ks best) best = false).
Proof.
  intros L S N H H0.
  destruct (analysis_ok_scores A m H) as (_ & h & Hmax & Hidx & ->).
  destruct (py_max_position A ks (snd h) Hmax) as [Hpos Hnth].
  destruct (index_from_first _ _ _ _ (snd h) Hidx) as [Hat Hbefore].
  rewrite Nat.sub_0_r in Hat.
  destruct ks as [|x0 ks'] eqn:Eks; [discriminate Hmax|].
  assert (Hh : h = max_loop A ks' 1 (0%nat, x0)) by (simpl in Hmax; congruence).
  assert (Hb : is_num A (snd h)).
  { rewrite Hh. apply max_loop_num; [exact N | exact H0]. }
  split; [exact Hb|]. split; [|split].
  - intros x Hx Hnum. apply (not_ltb_leb L); [exact Hb | exact Hnum|].
    rewrite Hh. apply (@max_loop_unbeaten A ks' S [x0] 1%nat (0%nat, x0)).
    + intros y [<-|[]]. apply (ltb_irrefl S).
    + exact Hx.
  - destruct Hat as [->|Hat]; [|exact Hat]. rewrite Hnth. exact Hb.
  - intros j Hj. destruct (Hbefore j) as [_ Hf]; [lia|].
    rewrite Nat.sub_0_r in Hf. exact Hf.
Qed.

Lemma analysis_best_of_numbers_witness :
  reviewer_contribution_analysis binary64 dissenter_second =
    Ok (0%nat, (-0.33333333333333331)%float,
        [(-0.33333333333333331)%float; nan; (-0.33333333333333331)%float]) /\
  is_num binary64 (-0.33333333333333331)%float /\
  eqb binary64 (-0.33333333333333331)%float (-0.33333333333333331)%float = true.
Proof.
  assert (H : reviewer_contribution_analysis binary64 dissenter_second =
    Ok (0%nat, (-0.33333333333333331)%float,
        [(-0.33333333333333331)%float; nan; (-0.33333333333333331)%float]))
    by (vm_compute; reflexivity).
  assert (H0 : is_num binary64
                 (nth 0 [(-0.33333333333333331)%float; nan;
                         (-0.33333333333333331)%float]
                      (-0.33333333333333331)%float))
    by (vm_compute; reflexivity).
  split; [exact H|].
  destruct (analysis_best_of_numbers dissenter_second binary64_order_laws
              binary64_strict_order binary64_nan_unordered H H0)
    as (Hb & _ & He & _).
  split; [exact Hb | exact He].
Defined.

(* ================================================================= *)
(** ** A lone dissenter *)





